(** * Data preparation of the predictive-maintenance training notebook

    A shallow embedding of [src/Notebooks/ModelTraining.ipynb]: the pandas
    tables it manipulates, the notebook cells that load, pre-filter, split,
    label, balance and sample them, and the properties of these cells.

    Tables are modelled row-wise.  A row is the labelled [Series] that
    [DataFrame.apply(..., axis=1)] hands to a function: column label and
    value, in column order.  A table carries the name of its index, the
    list of its columns and its rows, each paired with its index label.
    A call that raises in Python returns [None].  The sizes of a split
    are computed in binary64 floats, as Python computes them. *)

From Stdlib Require Import ZArith QArith SpecFloat.
From stdpp Require Import base option list strings sorting gmap.

Set Warnings "-clear-no-such-hyp".

Open Scope string_scope.
Open Scope list_scope.
Open Scope stdpp_scope.

(** ** Cells, rows and tables *)

(** A value of a table: the missing value [NaN], a number or a string.
    Numbers are integers: [cycle], [rul] and the identifiers are integral,
    and the sensor readings are never inspected. *)
Inductive cell :=
  | NaN
  | Num (z : Z)
  | Str (s : string).

#[global] Instance cell_eq_dec : EqDecision cell.
Proof. solve_decision. Defined.

Abbreviation Row := (list (string * cell)).

(** [row.c]: the first value labelled [c]; rows of a table that has the
    column always hold one. *)
Fixpoint row_get (c : string) (r : Row) : cell :=
  match r with
  | [] => NaN
  | (k, v) :: r' => if decide (k = c) then v else row_get c r'
  end.

Definition row_drop (cs : list string) (r : Row) : Row :=
  filter (λ kv, kv.1 ∉ cs) r.

Record DataFrame := mkDF {
  index_name : option string;
  columns : list string;
  rows : list (cell * Row)
}.

(** Every row holds exactly the columns of its table. *)
Definition wf (df : DataFrame) : Prop :=
  Forall (λ e, e.2.*1 = columns df) (rows df).

#[global] Instance wf_dec df : Decision (wf df).
Proof. unfold wf. apply _. Defined.

Definition has_columns (cs : list string) (df : DataFrame) : Prop :=
  Forall (λ c, c ∈ columns df) cs.

#[global] Instance has_columns_dec cs df : Decision (has_columns cs df).
Proof. unfold has_columns. apply _. Defined.

(** The column [df.c] as a list of values. *)
Definition col (c : string) (df : DataFrame) : list cell :=
  (λ e, row_get c e.2) <$> rows df.

(** ** Values: truth, comparison, arithmetic *)

(** Python truth of a value: [nan] is true (it is a non-zero float), zero
    and the empty string are false. *)
Definition truthy (c : cell) : bool :=
  match c with
  | NaN => true
  | Num z => negb (z =? 0)%Z
  | Str s => negb (String.eqb s "")
  end.

Definition isna (c : cell) : bool :=
  match c with NaN => true | _ => false end.

(** Comparisons of numbers; any comparison with [nan] is false.  (A string
    in a numeric column makes Python raise; tables read from the feature
    files hold numbers or [nan] there.) *)
Definition cell_ltb (a b : cell) : bool :=
  match a, b with Num x, Num y => (x <? y)%Z | _, _ => false end.

Definition cell_leb (a b : cell) : bool :=
  match a, b with Num x, Num y => (x <=? y)%Z | _, _ => false end.

Definition cell_sub (a b : cell) : cell :=
  match a, b with Num x, Num y => Num (x - y)%Z | _, _ => NaN end.

(** ** Index and column operations of pandas *)

Definition range_index (rs : list (cell * Row)) : list (cell * Row) :=
  imap (λ i e, (Num (Z.of_nat i), e.2)) rs.

(** [df.reset_index(drop=True)] *)
Definition reset_index_drop (df : DataFrame) : DataFrame :=
  mkDF None (columns df) (range_index (rows df)).

(** [df.drop(cs, axis=1)]: raises [KeyError] when a label is not a column. *)
Definition df_drop (cs : list string) (df : DataFrame) : option DataFrame :=
  if decide (has_columns cs df)
  then Some (mkDF (index_name df)
                  (filter (λ c, c ∉ cs) (columns df))
                  ((λ e, (e.1, row_drop cs e.2)) <$> rows df))
  else None.

(** [df.apply(g, axis=1)]: the values of the resulting series. *)
Definition apply_rows {A} (g : Row → A) (df : DataFrame) : list A :=
  (λ e, g e.2) <$> rows df.

(** [df[mask]]: the rows where the mask holds, with their index labels. *)
Definition df_filter (p : Row → bool) (df : DataFrame) : DataFrame :=
  mkDF (index_name df) (columns df) (filter (λ e, p e.2) (rows df)).

(** [df.set_index([c])]: the column becomes the index and leaves the
    columns; raises [KeyError] when there is no such column. *)
Definition set_index_row (c : string) (e : cell * Row) : cell * Row :=
  (row_get c e.2, row_drop [c] e.2).

Definition set_index (c : string) (df : DataFrame) : option DataFrame :=
  if decide (c ∈ columns df)
  then Some (mkDF (Some c) (filter (λ k, k ∉ [c]) (columns df))
                  (set_index_row c <$> rows df))
  else None.

(** [df.reset_index()]: the index comes back as the first column, under
    its name ([index], or [level_0] when [index] is taken, for an unnamed
    index), and positions become the index; raises [ValueError] when the
    name is already a column. *)
Definition reset_name (df : DataFrame) : string :=
  match index_name df with
  | Some n => n
  | None => if decide ("index" ∈ columns df) then "level_0" else "index"
  end.

Definition reset_index (df : DataFrame) : option DataFrame :=
  let name := reset_name df in
  if decide (name ∈ columns df) then None
  else Some (mkDF None (name :: columns df)
                  (range_index ((λ e, (e.1, (name, e.1) :: e.2)) <$> rows df))).

(** The order of index labels used by [sort_index]: numbers by value,
    strings by character codes, missing labels last.  (Python refuses to
    compare a number with a string; numbers are put first here.) *)
Definition label_leb (a b : cell) : bool :=
  match a, b with
  | Num x, Num y => (x <=? y)%Z
  | Num _, _ => true
  | Str _, Num _ => false
  | Str s, Str t => String.leb s t
  | Str _, NaN => true
  | NaN, NaN => true
  | NaN, _ => false
  end.

(** [df.sort_index()].  The sort is stable here; pandas promises no order
    among equal labels. *)
Definition sort_index (df : DataFrame) : DataFrame :=
  mkDF (index_name df) (columns df)
       (merge_sort (λ a b, label_leb a.1 b.1) (rows df)).

(** [pd.unique]: the distinct values in order of first appearance. *)
Fixpoint unique {A} `{EqDecision A} (l : list A) : list A :=
  match l with
  | [] => []
  | x :: l' => x :: filter (λ y, y ≠ x) (unique l')
  end.

(** ** Grouping and joining *)

Definition numbers (l : list cell) : list Z :=
  omap (λ c, match c with Num z => Some z | _ => None end) l.

(** [max], [min] and [count] of a group: missing values are skipped, and an
    all-missing group has a missing extremum. *)
Definition agg_max (l : list cell) : cell :=
  match numbers l with
  | [] => NaN
  | z :: zs => Num (foldr Z.max z zs)
  end.

Definition agg_min (l : list cell) : cell :=
  match numbers l with
  | [] => NaN
  | z :: zs => Num (foldr Z.min z zs)
  end.

Definition agg_count (l : list cell) : Z :=
  Z.of_nat (length (filter (λ c, c ≠ NaN) l)).

(** The group keys of [df.groupby([key])]: the distinct non-missing values
    of the column, sorted. *)
Definition group_keys (key : string) (df : DataFrame) : list cell :=
  merge_sort label_leb (unique (filter (λ k, k ≠ NaN) (col key df))).

Definition group (key : string) (k : cell) (df : DataFrame) : list (cell * Row) :=
  filter (λ e, row_get key e.2 = k) (rows df).

(** [df.groupby([key]).c.agg(g)]: a series indexed by the group keys. *)
Definition groupby_agg (key c : string) (g : list cell → cell) (df : DataFrame)
  : option (list (cell * cell)) :=
  if decide (has_columns [key; c] df)
  then Some ((λ k, (k, g ((λ e, row_get c e.2) <$> group key k df)))
               <$> group_keys key df)
  else None.

Fixpoint series_get (k : cell) (s : list (cell * cell)) : option cell :=
  match s with
  | [] => None
  | (k', v) :: s' => if decide (k' = k) then Some v else series_get k s'
  end.

(** [df.join(s.to_frame(name=name), on=key)]: a left join of the series on
    the key column; rows without a match get a missing value.  Raises when
    the key is no column or the new column overlaps. *)
Definition join_on (key name : string) (s : list (cell * cell)) (df : DataFrame)
  : option DataFrame :=
  if decide (key ∈ columns df ∧ name ∉ columns df)
  then Some (mkDF (index_name df) (columns df ++ [name])
                  ((λ e, (e.1, e.2 ++ [(name, default NaN (series_get (row_get key e.2) s))]))
                     <$> rows df))
  else None.

(** ** Reading input data (cell 3) *)

Definition reindex (cols : list string) (r : Row) : Row :=
  (λ c, (c, row_get c r)) <$> cols.

(** [pd.concat(dfs, ignore_index=True)]: the rows of the tables one after
    the other over the union of their columns (taken here in order of
    first appearance), missing values where a table lacks a column, and a
    fresh positional index.  Raises only when there is no table. *)
Definition pd_concat (dfs : list DataFrame) : option DataFrame :=
  match dfs with
  | [] => None
  | _ =>
      let cols := unique (mjoin (columns <$> dfs)) in
      Some (mkDF None cols
                 (range_index
                    (mjoin ((λ df, (λ e, (e.1, reindex cols e.2)) <$> rows df) <$> dfs))))
  end.

Definition load (dfs : list DataFrame) : option DataFrame := pd_concat dfs.

(** ** Elimination of possible false negatives (cell 5)

    The aggregate over the records without [rul] is a series keyed by
    machine, in which the join on [machineID] looks up the [max_cycle] of
    every record; a record of a machine without such records gets a
    missing value. *)

(** [lambda x: x['max'] - min(x['count'], w)] on the cycles of a group *)
Definition tail_cut (w : Z) (cycles : list cell) : cell :=
  cell_sub (agg_max cycles) (Num (Z.min (agg_count cycles) w)).

Definition keep_le (r : Row) : bool :=
  isna (row_get "max_cycle" r)
  || cell_leb (row_get "cycle" r) (row_get "max_cycle" r).

Definition prefilter (w : Z) (combined_df : DataFrame) : option DataFrame :=
  guard ("rul" ∈ columns combined_df);;
  s ← groupby_agg "machineID" "cycle" (tail_cut w)
        (df_filter (λ r, isna (row_get "rul" r)) combined_df);
  max_cycles ← join_on "machineID" "max_cycle" s combined_df;
  df_drop ["max_cycle"] (df_filter keep_le max_cycles).

(** ** Train/test split (cell 7) *)

(** Python's floats are the binary64 numbers of IEEE 754: 53 bits of
    precision, exponents below 1024. *)
Definition prec : Z := 53.
Definition emax : Z := 1024.

(** [float(z)] of an integer: the nearest float, ties to even. *)
Definition float_of_int (z : Z) : spec_float :=
  binary_normalize prec emax z 0 false.

(** The float that a literal denotes, as [0.2] for [2 # 10]: the float
    nearest to the fraction, ties to even. *)
Definition float_of_Q (q : Q) : spec_float :=
  match Qnum q with
  | Z0 => S754_zero false
  | Zpos p =>
      SFdiv prec emax (S754_finite false p 0) (S754_finite false (Qden q) 0)
  | Zneg p =>
      SFdiv prec emax (S754_finite true p 0) (S754_finite false (Qden q) 0)
  end.

(** [math.ceil(x)], which raises for the infinities and for NaN. *)
Definition ceil (x : spec_float) : option Z :=
  match x with
  | S754_zero _ => Some 0%Z
  | S754_finite s m e =>
      let z := if s then Z.neg m else Z.pos m in
      Some (if (0 <=? e)%Z then z * 2 ^ e else - ((- z) / 2 ^ (- e)))%Z
  | _ => None
  end.

(** [_validate_shuffle_split(n_samples, test_size, None)] of
    scikit-learn: the sizes [(n_train, n_test)] that [train_test_split]
    derives from the float [test_size] its caller writes and the number
    of samples.  A [test_size] outside of the open interval from 0 to 1
    raises; [n_test = ceil(test_size * n_samples)], a product and a
    ceiling of floats; [n_train = n_samples - n_test], and a train set
    without samples raises.  The float product exceeds [n_samples] only
    beyond the 2^53 samples up to which floats hold the integers exactly;
    a negative [n_train] raises here like an empty train set. *)
Definition validate_shuffle_split (n_samples : nat) (test_size : Q)
  : option (nat * nat) :=
  let test_size := float_of_Q test_size in
  guard (SFleb test_size (float_of_int 0) = false
         ∧ SFleb (float_of_int 1) test_size = false);;
  n_test ← ceil (SFmul prec emax test_size (float_of_int (Z.of_nat n_samples)));
  let n_train := (Z.of_nat n_samples - n_test)%Z in
  guard (0 < n_train)%Z;;
  Some (Z.to_nat n_train, Z.to_nat n_test).

(** [train_test_split(l, test_size=test_size, shuffle=False)]: the first
    [n_train] entries are the train part and the [n_test] entries that
    follow them the test part. *)
Definition train_test_split_ordered {A} (test_size : Q) (l : list A)
  : option (list A * list A) :=
  '(n_train, n_test) ← validate_shuffle_split (length l) test_size;
  Some (take n_train l, take n_test (drop n_train l)).

(** [train_test_split(l, test_size=test_size, random_state=seed)]: the
    first [n_test] indices of a random permutation select the test part
    and the next [n_train] the train part.  [permutation n] stands for
    [RandomState(seed).permutation(n)]. *)
Definition train_test_split_shuffled {A} (permutation : nat → list nat)
    (test_size : Q) (l : list A) : option (list A * list A) :=
  '(n_train, n_test) ← validate_shuffle_split (length l) test_size;
  let p := permutation (length l) in
  Some (omap (λ i, l !! i) (take n_train (drop n_test p)),
        omap (λ i, l !! i) (take n_test p)).

Definition keep_lt (r : Row) : bool :=
  isna (row_get "max_cycle" r)
  || cell_ltb (row_get "cycle" r) (row_get "max_cycle" r).

(** The exclusion of the rolling-window frames in front of the test data. *)
Definition exclude_lookback (lookback : Z) (train test : DataFrame)
  : option DataFrame :=
  test' ← reset_index test;
  min_cycles ← groupby_agg "machineID" "cycle"
                  (λ cs, cell_sub (agg_min cs) (Num lookback)) test';
  train' ← reset_index train;
  t ← join_on "machineID" "max_cycle" min_cycles train';
  train ← df_drop ["max_cycle"] (df_filter keep_lt t);
  set_index "entryID" train.

Definition time_dependent_split (lookback : Z) (test_size : Q) (data : DataFrame)
  : option (DataFrame * DataFrame) :=
  data ← set_index "entryID" data;
  let data := sort_index data in
  '(tr, te) ← train_test_split_ordered test_size (rows data);
  let train := mkDF (index_name data) (columns data) tr in
  let test := mkDF (index_name data) (columns data) te in
  train ← exclude_lookback lookback train test;
  Some (train, test).

Definition isin (assets : list cell) (r : Row) : bool :=
  bool_decide (row_get "machineID" r ∈ assets).

Definition asset_split (permutation : nat → list nat) (test_size : Q)
    (data : DataFrame) : option (DataFrame * DataFrame) :=
  data' ← reset_index data;
  guard ("machineID" ∈ columns data');;
  let unique_assets := unique (col "machineID" data') in
  '(train_assets, test_assets) ←
    train_test_split_shuffled permutation test_size unique_assets;
  guard ("machineID" ∈ columns data);;
  train ← set_index "entryID" (df_filter (isin train_assets) data);
  test ← set_index "entryID" (df_filter (isin test_assets) data);
  Some (train, test).

Definition partition (time_split : bool) (permutation : nat → list nat)
    (lookback : Z) (test_size : Q) (data : DataFrame)
  : option (DataFrame * DataFrame) :=
  if time_split then time_dependent_split lookback test_size data
  else asset_split permutation test_size data.

(** ** Label assignment (cell 9) *)

(** [lambda row: row.failure if row.rul and row.rul < w else ''] *)
Definition f (w : Z) (row : Row) : cell :=
  if truthy (row_get "rul" row) && cell_ltb (row_get "rul" row) (Num w)
  then row_get "failure" row
  else Str "".

Definition columns_to_drop : list string :=
  ["cycle"; "failure"; "rul"; "sequenceID"; "machineID"].

Definition xy (data : DataFrame) (w : Z) : option (DataFrame * list cell) :=
  let data := reset_index_drop data in
  X ← df_drop columns_to_drop data;
  Some (X, apply_rows (f w) data).

(** ** Correction of data imbalance (cell 13) *)

Definition count_of (c : cell) (y : list cell) : nat :=
  length (filter (λ x, x = c) y).

Definition classes (y : list cell) : list cell :=
  merge_sort label_leb (unique y).

Definition majority_count (y : list cell) : nat :=
  max_list ((λ c, count_of c y) <$> classes y).

(** The samples a class needs to be over-sampled: its five nearest
    neighbours and the sample itself. *)
Definition neighbors_required : nat := 6.

(** Modelled from the spec: [SMOTE(random_state=seed).fit_sample], the
    over-sampler of the imbalanced-learn library, is not among the sources.
    On the labels it keeps the training labels and appends, per minority
    class, as many synthetic samples as the class lacks to reach the
    majority class's count.  It fails when the labels hold fewer than two
    classes, or when a class to over-sample has fewer samples than the
    neighbour count the technique requires.  The synthetic feature vectors
    (floating-point interpolation between random neighbours) are not
    modelled. *)
Definition smote_labels (y : list cell) : option (list cell) :=
  guard (2 ≤ length (classes y))%nat;;
  guard (Forall (λ c, count_of c y = majority_count y
                      ∨ (neighbors_required ≤ count_of c y)%nat) (classes y));;
  Some (y ++ mjoin ((λ c, replicate (majority_count y - count_of c y) c)
                       <$> classes y)).

(** ** Persisting an input sample (cell 21) *)




(** ** The data preparation as a function *)

(** The settings of the notebook.  The random state seeded by [seed] is
    represented by the permutations it draws. *)
Record Config := mkConfig {
  w : Z;
  lookback : Z;
  test_size : Q;
  time_split : bool;
  permutation : nat → list nat
}.

Record Prepared := mkPrepared {
  X_train : DataFrame; Y_train : list cell;
  X_test : DataFrame; Y_test : list cell;
  Y_train_res : list cell
}.

Definition split_data (cfg : Config) (dfs : list DataFrame)
  : option (DataFrame * DataFrame) :=
  combined_df ← load dfs;
  data ← prefilter (w cfg) combined_df;
  partition (time_split cfg) (permutation cfg) (lookback cfg) (test_size cfg) data.

Definition prepare (cfg : Config) (dfs : list DataFrame) : option Prepared :=
  '(train, test) ← split_data cfg dfs;
  '(X_train, Y_train) ← xy train (w cfg);
  '(X_test, Y_test) ← xy test (w cfg);
  Y_train_res ← smote_labels Y_train;
  Some (mkPrepared X_train Y_train X_test Y_test Y_train_res).

(** ** The notebook as a program on the interpreter's store

    Tables are mutable objects and the notebook's names refer to them:
    an assignment binds a name to a new object, a call with
    [inplace=True] changes the object a name refers to.  The cells are
    numbered by their position in the notebook. *)

Inductive object :=
  | Table (df : DataFrame)
  | Series (s : list (cell * cell))
  | Values (l : list cell).

Record Store := mkStore {
  heap : list object;
  names : gmap string nat
}.

Definition empty_store : Store := mkStore [] ∅.

Definition M (A : Type) : Type := Store → option (A * Store).

#[global] Instance M_ret : MRet M := λ A a σ, Some (a, σ).
#[global] Instance M_bind : MBind M := λ A B k m σ,
  match m σ with
  | Some (a, σ') => k a σ'
  | None => None
  end.

Definition lift {A} (o : option A) : M A := λ σ, a ← o; Some (a, σ).

(** [x = o]: a new object, and the name refers to it from now on. *)
Definition assign (x : string) (o : object) : M unit := λ σ,
  Some ((), mkStore (heap σ ++ [o]) (<[x := length (heap σ)]> (names σ))).

Definition deref (x : string) : M object := λ σ,
  l ← names σ !! x; o ← heap σ !! l; Some (o, σ).

Definition table (x : string) : M DataFrame :=
  o ← deref x; lift (match o with Table df => Some df | _ => None end).

Definition values (x : string) : M (list cell) :=
  o ← deref x; lift (match o with Values l => Some l | _ => None end).

(** [x.g(..., inplace=True)]: the object itself is changed. *)
Definition inplace (x : string) (g : DataFrame → option DataFrame) : M unit := λ σ,
  l ← names σ !! x;
  o ← heap σ !! l;
  match o with
  | Table df => df' ← g df; Some ((), mkStore (<[l := Table df']> (heap σ)) (names σ))
  | _ => None
  end.

Definition cell3 (dfs : list DataFrame) : M unit :=
  df ← lift (pd_concat dfs);
  assign "combined_df" (Table df).

Definition cell5 (cfg : Config) : M unit :=
  combined_df ← table "combined_df";
  lift (guard ("rul" ∈ columns combined_df));;
  s ← lift (groupby_agg "machineID" "cycle" (tail_cut (w cfg))
              (df_filter (λ r, isna (row_get "rul" r)) combined_df));
  j ← lift (join_on "machineID" "max_cycle" s combined_df);
  assign "max_cycles" (Table j);;
  max_cycles ← table "max_cycles";
  d ← lift (df_drop ["max_cycle"] (df_filter keep_le max_cycles));
  assign "data" (Table d).

Definition cell7_time (cfg : Config) : M unit :=
  inplace "data" (set_index "entryID");;
  inplace "data" (λ d, Some (sort_index d));;
  data ← table "data";
  '(tr, te) ← lift (train_test_split_ordered (test_size cfg) (rows data));
  assign "train" (Table (mkDF (index_name data) (columns data) tr));;
  assign "test" (Table (mkDF (index_name data) (columns data) te));;
  test ← table "test";
  test' ← lift (reset_index test);
  s ← lift (groupby_agg "machineID" "cycle"
              (λ cs, cell_sub (agg_min cs) (Num (lookback cfg))) test');
  assign "min_cycles" (Series s);;
  train ← table "train";
  train' ← lift (reset_index train);
  j ← lift (join_on "machineID" "max_cycle" s train');
  assign "t" (Table j);;
  t ← table "t";
  d ← lift (df_drop ["max_cycle"] (df_filter keep_lt t));
  assign "train" (Table d);;
  inplace "train" (set_index "entryID").

Definition cell7_asset (cfg : Config) : M unit :=
  data ← table "data";
  data' ← lift (reset_index data);
  lift (guard ("machineID" ∈ columns data'));;
  assign "unique_assets" (Values (unique (col "machineID" data')));;
  unique_assets ← values "unique_assets";
  '(train_assets, test_assets) ←
    lift (train_test_split_shuffled (permutation cfg) (test_size cfg)
            unique_assets);
  assign "train_assets" (Values train_assets);;
  assign "test_assets" (Values test_assets);;
  lift (guard ("machineID" ∈ columns data));;
  assign "train" (Table (df_filter (isin train_assets) data));;
  assign "test" (Table (df_filter (isin test_assets) data));;
  inplace "train" (set_index "entryID");;
  inplace "test" (set_index "entryID").

Definition cell7 (cfg : Config) : M unit :=
  if time_split cfg then cell7_time cfg else cell7_asset cfg.

Definition cell9 (cfg : Config) : M unit :=
  train ← table "train";
  '(X, Y) ← lift (xy train (w cfg));
  assign "X_train" (Table X);;
  assign "Y_train" (Values Y);;
  test ← table "test";
  '(X, Y) ← lift (xy test (w cfg));
  assign "X_test" (Table X);;
  assign "Y_test" (Values Y).

Definition cell13 : M unit :=
  Y ← values "Y_train";
  Y_res ← lift (smote_labels Y);
  assign "Y_train_res" (Values Y_res).

(** The near-duplicate notebook has no pre-filter: its loading cell binds
    the unified table to [data], the name the split works on. *)
Definition variant_cell3 (dfs : list DataFrame) : M unit :=
  df ← lift (pd_concat dfs);
  assign "data" (Table df).

(** The stages after loading, in the order of the notebook. *)
Definition stages (cfg : Config) : list (M unit) :=
  [cell5 cfg; cell7 cfg; cell9 cfg; cell13].

Definition run (ms : list (M unit)) (σ : Store) : option Store :=
  foldl (λ o m, σ ← o; snd <$> m σ) (Some σ) ms.

Definition notebook (cfg : Config) (dfs : list DataFrame) : option Store :=
  σ ← snd <$> cell3 dfs empty_store;
  run (stages cfg) σ.

(** What the notebook leaves in the store for training and evaluation. *)
Definition read_prepared (σ : Store) : option Prepared :=
  X_train ← fst <$> table "X_train" σ;
  Y_train ← fst <$> values "Y_train" σ;
  X_test ← fst <$> table "X_test" σ;
  Y_test ← fst <$> values "Y_test" σ;
  Y_train_res ← fst <$> values "Y_train_res" σ;
  Some (mkPrepared X_train Y_train X_test Y_test Y_train_res).

(** ** Vocabulary of the properties *)

(** The records of machine [m] among some rows, and their cycles. *)
Definition machine_rows (m : cell) (rs : list (cell * Row)) : list (cell * Row) :=
  filter (λ e, row_get "machineID" e.2 = m) rs.

Definition cycles (rs : list (cell * Row)) : list cell :=
  (λ e, row_get "cycle" e.2) <$> rs.

(** [mn] is the least cycle of machine [m] in the test set. *)
Definition is_min_test_cycle (test : DataFrame) (m : cell) (mn : Z) : Prop :=
  Num mn ∈ cycles (machine_rows m (rows test))
  ∧ ∀ c, Num c ∈ cycles (machine_rows m (rows test)) → (mn ≤ c)%Z.

(** The sign bit of a float is clear. *)
Definition unsigned (x : spec_float) : Prop :=
  match x with
  | S754_zero s | S754_infinity s | S754_finite s _ _ => s = false
  | S754_nan => True
  end.

(** The number of samples that a split strategy hands to
    [train_test_split]: the records for the time-dependent split, the
    distinct machines for the asset ID-based split. *)
Definition n_samples (time_split : bool) (data : DataFrame) : nat :=
  if time_split then length (rows data)
  else length (unique (col "machineID" data)).

(** The tables each split strategy runs on. *)
Definition time_ok (data : DataFrame) : Prop :=
  has_columns ["entryID"; "machineID"; "cycle"] data ∧ "max_cycle" ∉ columns data.

Definition asset_ok (data : DataFrame) : Prop :=
  has_columns ["entryID"; "machineID"] data ∧ reset_name data ∉ columns data.

Definition split_ok (time_split : bool) (data : DataFrame) : Prop :=
  if time_split then time_ok data else asset_ok data.

(** A series with one value per machine of some rows: [g] of the
    machine's cycles, for the distinct non-missing machines in sorted
    order.  This is what [groupby(['machineID']).cycle.agg(g)] yields. *)
Definition per_machine (g : list cell → cell) (rs : list (cell * Row))
  : list (cell * cell) :=
  (λ k, (k, g (cycles (machine_rows k rs))))
    <$> merge_sort label_leb
          (unique (filter (λ k, k ≠ NaN) ((λ e, row_get "machineID" e.2) <$> rs))).

(** The series [min_cycles] of the time-dependent split, as a function of
    the test rows: per machine of the test set, its least test cycle minus
    the look-back. *)
Definition min_cycles (lookback : Z) (te : list (cell * Row)) : list (cell * cell) :=
  per_machine (λ cs, cell_sub (agg_min cs) (Num lookback)) te.

(** The records that carry no remaining useful life, and the series
    [max_cycle] of the pre-filter as a function of the rows: per machine
    with such records, their last cycle minus the length of the tail. *)
Definition censored (rs : list (cell * Row)) : list (cell * Row) :=
  filter (λ e, isna (row_get "rul" e.2)) rs.

Definition max_cycle_series (w : Z) (rs : list (cell * Row)) : list (cell * cell) :=
  per_machine (tail_cut w) (censored rs).

(** A row is retained by the pre-filter when its machine has no
    [max_cycle] or its cycle does not exceed it. *)
Definition retained (s : list (cell * cell)) (e : cell * Row) : bool :=
  let v := default NaN (series_get (row_get "machineID" e.2) s) in
  isna v || cell_leb (row_get "cycle" e.2) v.

Definition prefilter_ok (data : DataFrame) : Prop :=
  has_columns ["rul"; "machineID"; "cycle"] data ∧ "max_cycle" ∉ columns data.

(** A train row survives the exclusion when its machine has no threshold
    or its cycle lies below the threshold. *)
Definition survives (s : list (cell * cell)) (e : cell * Row) : bool :=
  let v := default NaN (series_get (row_get "machineID" e.2) s) in
  isna v || cell_ltb (row_get "cycle" e.2) v.

(** The object at location [l] is [o], the name [combined_df] refers to it
    and no other name does. *)
Definition untouched (l : nat) (o : object) (σ : Store) : Prop :=
  names σ !! "combined_df" = Some l
  ∧ heap σ !! l = Some o
  ∧ ∀ x, x ≠ "combined_df" → names σ !! x ≠ Some l.

Definition preserves {A} (l : nat) (o : object) (m : M A) : Prop :=
  ∀ σ a σ', m σ = Some (a, σ') → untouched l o σ → untouched l o σ'.

(** The name [x] refers to the object [o] at location [l], and none of the
    names [ys] refers to that object. *)
Definition refers (x : string) (ys : list string) (l : nat) (o : object)
    (σ : Store) : Prop :=
  names σ !! x = Some l
  ∧ heap σ !! l = Some o
  ∧ ∀ y, y ∈ ys → names σ !! y ≠ Some l.

(** Whenever [m] returns from a store where [P] holds, [Q] holds in the
    store it leaves. *)
Definition triple {A} (P : Store → Prop) (m : M A) (Q : Store → Prop) : Prop :=
  ∀ σ a σ', m σ = Some (a, σ') → P σ → Q σ'.

(** The store [σ] after the objects [os] have been allocated and the
    names rebound to [nm]. *)
Definition extended (σ : Store) (os : list object) (nm : gmap string nat) : Store :=
  mkStore (heap σ ++ os) nm.

(** ** Example tables *)

(** A single record of the failing cycle: no cycle remains ([rul = 0]) and
    the run ends in failure [F1]. *)
Definition failing_record : DataFrame :=
  mkDF (Some "entryID")
       ["machineID"; "cycle"; "sequenceID"; "rul"; "failure"; "s1"]
       [(Num 17, [("machineID", Num 1); ("cycle", Num 40); ("sequenceID", Num 1);
                  ("rul", Num 0); ("failure", Str "F1"); ("s1", Num 1000)])].

(** Feature tables with one sensor column. *)
Definition feature_columns : list string :=
  ["entryID"; "machineID"; "cycle"; "sequenceID"; "rul"; "failure"; "s1"].

Definition record (entry machine cyc : Z) (rul : cell) (failure : string) : Row :=
  [("entryID", Num entry); ("machineID", Num machine); ("cycle", Num cyc);
   ("sequenceID", Num 1); ("rul", rul); ("failure", Str failure); ("s1", Num 1000)].

Definition table_of (rs : list Row) : DataFrame :=
  mkDF None feature_columns (imap (λ i r, (Num (Z.of_nat i), r)) rs).

(** Machine 1 runs the cycles 41 to 50 and fails at cycle 50. *)
Definition machine_M : DataFrame :=
  table_of ((λ i, record i 1 (40 + i) (Num (10 - i)) "F1") <$> seqZ 1 10).

(** Machine 1 fails after three cycles; machine 2 still runs after three. *)
Definition two_machines : DataFrame :=
  table_of [record 1 1 1 (Num 2) "F1"; record 2 1 2 (Num 1) "F1";
            record 3 1 3 (Num 0) "F1"; record 4 2 1 NaN "";
            record 5 2 2 NaN ""; record 6 2 3 NaN ""].

(** Two machines that each fail after twenty cycles, with different
    failure modes, and the two configurations of the notebook. *)
Definition fleet : DataFrame :=
  table_of (((λ i, record i 1 i (Num (20 - i)) "F1") <$> seqZ 1 20)
            ++ ((λ i, record (20 + i) 2 i (Num (20 - i)) "F2") <$> seqZ 1 20)).

Definition asset_config : Config := mkConfig 7 5 (1 # 2) false (seq 0).

Definition time_config : Config := mkConfig 7 5 (2 # 10) true (seq 0).

(** Two feature tables that disagree on their sensor column. *)
Definition source_a : DataFrame :=
  mkDF None ["entryID"; "s1"] [(Num 0, [("entryID", Num 1); ("s1", Num 10)])].

Definition source_b : DataFrame :=
  mkDF None ["entryID"; "s2"] [(Num 0, [("entryID", Num 2); ("s2", Num 20)])].

(** * Properties *)

(** ** Lists *)

(** Rewriting with an instance of a lemma whose statement applies a
    predicate or function variable: the instance is normalised first. *)
Ltac rewrite_beta lem :=
  let H := fresh in pose proof lem as H; cbv beta in H; rewrite H; clear H.

Lemma filter_fmap {A B} (g : A → B) (P : B → Prop) `{∀ x, Decision (P x)} (l : list A) :
  filter P (g <$> l) = g <$> filter (P ∘ g) l.
Proof.
  induction l as [|x l IH]; [done|]. csimpl. rewrite !filter_cons, IH. simpl.
  by destruct (decide (P (g x))).
Qed.

Lemma filter_ext_Forall {A} (P Q : A → Prop) `{∀ x, Decision (P x)}
    `{∀ x, Decision (Q x)} (l : list A) :
  Forall (λ x, P x ↔ Q x) l → filter P l = filter Q l.
Proof.
  induction 1 as [|x l Hx _ IH]; [done|].
  rewrite !filter_cons, IH.
  destruct (decide (P x)), (decide (Q x)); first [done | exfalso; tauto].
Qed.

Lemma filter_exclusive_submseteq {A} (P Q : A → Prop) `{∀ x, Decision (P x)}
    `{∀ x, Decision (Q x)} (l : list A) :
  (∀ x, P x → Q x → False) → filter P l ++ filter Q l ⊆+ l.
Proof.
  intros Hex. induction l as [|x l IH]; [done|].
  rewrite !filter_cons. destruct (decide (P x)) as [HP|HP], (decide (Q x)) as [HQ|HQ].
  - destruct (Hex x HP HQ).
  - simpl. by apply submseteq_skip.
  - rewrite <- Permutation_middle. by apply submseteq_skip.
  - by apply submseteq_cons.
Qed.

Lemma submseteq_NoDup {A} (l k : list A) : l ⊆+ k → NoDup k → NoDup l.
Proof.
  intros [k' ->]%submseteq_Permutation. rewrite NoDup_app. by intros [? _].
Qed.

Lemma fmap_mjoin {A B} (g : A → B) (ls : list (list A)) :
  g <$> mjoin ls = mjoin (fmap g <$> ls).
Proof.
  induction ls as [|l ls IH]; [done|]. csimpl. by rewrite fmap_app, IH.
Qed.

Lemma fmap_fields {A B C} (g : B → A) (l : list (C * B)) :
  (λ e, g e.2) <$> l = g <$> l.*2.
Proof. by rewrite <- list_fmap_compose. Qed.

Lemma imap_fields {A} (g : nat → A → cell) (rs : list (A * Row)) :
  (imap (λ i e, (g i e.1, e.2)) rs).*2 = rs.*2.
Proof.
  revert g. induction rs as [|e rs IH]; intros g; simpl; [done|].
  f_equal. apply (IH (g ∘ S)).
Qed.


Section unique.
Context {A : Type} `{EqDecision A}.
Implicit Types l : list A.

Lemma filter_id (P : A → Prop) `{∀ x, Decision (P x)} l :
  Forall P l → filter P l = l.
Proof.
  induction 1 as [|x l Hx _ IH]; [done|].
  by rewrite filter_cons, decide_True, IH.
Qed.

Lemma filter_comm (P Q : A → Prop) `{∀ x, Decision (P x)} `{∀ x, Decision (Q x)} l :
  filter P (filter Q l) = filter Q (filter P l).
Proof. rewrite !list_filter_filter. apply list_filter_iff. tauto. Qed.

Lemma elem_of_unique x l : x ∈ unique l ↔ x ∈ l.
Proof.
  induction l as [|y l IH]; simpl; [done|].
  rewrite !elem_of_cons, list_elem_of_filter, IH.
  destruct (decide (x = y)); naive_solver.
Qed.

Lemma NoDup_unique l : NoDup (unique l).
Proof.
  induction l as [|y l IH]; simpl; [constructor|].
  constructor; [|by apply NoDup_filter].
  rewrite list_elem_of_filter. by intros [? _].
Qed.

Lemma filter_unique (P : A → Prop) `{∀ x, Decision (P x)} l :
  filter P (unique l) = unique (filter P l).
Proof.
  induction l as [|x l IH]; [done|]. simpl unique.
  rewrite !filter_cons. destruct (decide (P x)) as [Hx|Hx]; simpl.
  - by rewrite filter_comm, IH.
  - rewrite filter_comm, IH. apply filter_id, Forall_forall.
    intros y [Hy _]%elem_of_unique%list_elem_of_filter. by intros ->.
Qed.

Lemma unique_app_included l1 l2 : NoDup l1 → l2 ⊆ l1 → unique (l1 ++ l2) = l1.
Proof.
  intros Hnd. revert l2. induction Hnd as [|x l1 Hx Hnd IH]; intros l2 Hsub.
  - by apply list_nil_subseteq in Hsub as ->.
  - simpl. f_equal. rewrite filter_unique, filter_app.
    rewrite (filter_id _ l1).
    + apply IH. intros y [Hne Hy]%list_elem_of_filter.
      apply Hsub, elem_of_cons in Hy as [?|?]; done.
    + apply Forall_forall. by intros y Hy ->.
Qed.
End unique.

Lemma filter_impl_sublist {A} (P Q : A → Prop) `{∀ x, Decision (P x)}
    `{∀ x, Decision (Q x)} (l : list A) :
  Forall (λ x, P x → Q x) l → filter P l `sublist_of` filter Q l.
Proof.
  intros Himp.
  assert (filter P l = filter P (filter Q l)) as ->.
  { rewrite list_filter_filter. apply filter_ext_Forall.
    eapply Forall_impl; [exact Himp|]. simpl. tauto. }
  apply sublist_filter.
Qed.

Lemma filter_cover_Permutation {A} (P Q : A → Prop) `{∀ x, Decision (P x)}
    `{∀ x, Decision (Q x)} (l : list A) :
  Forall (λ x, (P x ∨ Q x) ∧ ¬ (P x ∧ Q x)) l → filter P l ++ filter Q l ≡ₚ l.
Proof.
  induction 1 as [|x l [Hor Hnand] _ IH]; [done|].
  rewrite !filter_cons.
  destruct (decide (P x)) as [HP|HP], (decide (Q x)) as [HQ|HQ].
  - destruct Hnand. done.
  - simpl. by rewrite IH.
  - rewrite <- Permutation_middle. by rewrite IH.
  - tauto.
Qed.

(** Selecting the elements of a list by position. *)
Section positions.
Context {A : Type} (l : list A).
Implicit Types idx : list nat.

Lemma length_omap_lookup idx :
  Forall (λ i, (i < length l)%nat) idx → length (omap (λ i, l !! i) idx) = length idx.
Proof.
  induction 1 as [|i idx Hi _ IH]; [done|]. csimpl.
  destruct (lookup_lt_is_Some_2 l i Hi) as [x ->]. simpl. by rewrite IH.
Qed.

Lemma NoDup_omap_lookup idx :
  NoDup l → NoDup idx → NoDup (omap (λ i, l !! i) idx).
Proof.
  intros Hnd. induction 1 as [|i idx Hi _ IH]; csimpl; [constructor|].
  destruct (l !! i) as [x|] eqn:Hx; simpl; [|exact IH].
  apply NoDup_cons. split; [|exact IH].
  intros (j & Hj & Hjx)%list_elem_of_omap.
  by rewrite (NoDup_lookup l i j x Hnd Hx Hjx) in Hi.
Qed.
End positions.



(** ** Rows and columns *)

Lemma row_get_app_ne c k v r : k ≠ c → row_get c (r ++ [(k, v)]) = row_get c r.
Proof.
  intros Hne. induction r as [|[k' v'] r IH]; simpl.
  - by rewrite decide_False.
  - by rewrite IH.
Qed.

Lemma row_get_absent c r : c ∉ r.*1 → row_get c r = NaN.
Proof.
  induction r as [|[k v] r IH]; simpl; [done|].
  rewrite not_elem_of_cons. intros [Hne Hr].
  rewrite decide_False; auto.
Qed.

Lemma row_get_app_absent c v r : c ∉ r.*1 → row_get c (r ++ [(c, v)]) = v.
Proof.
  induction r as [|[k v'] r IH]; simpl.
  - intros _. by rewrite decide_True.
  - rewrite not_elem_of_cons. intros [Hne Hr]. rewrite decide_False; auto.
Qed.

Lemma row_get_row_drop c cs r : c ∉ cs → row_get c (row_drop cs r) = row_get c r.
Proof.
  intros Hc. unfold row_drop. induction r as [|[k v] r IH]; [done|].
  rewrite filter_cons. simpl. destruct (decide (k ∉ cs)) as [Hk|Hk]; simpl.
  - by rewrite IH.
  - rewrite decide_False; [done|]. intros ->. by apply Hk.
Qed.

Lemma row_drop_keys cs r : (row_drop cs r).*1 = filter (λ c, c ∉ cs) r.*1.
Proof.
  unfold row_drop. induction r as [|[k v] r IH]; [done|].
  rewrite fmap_cons, !filter_cons. cbn [fst].
  destruct (decide (k ∉ cs)); [rewrite fmap_cons|]; by rewrite IH.
Qed.

Lemma row_drop_absent cs r : Forall (λ c, c ∉ r.*1) cs → row_drop cs r = r.
Proof.
  intros Hcs. unfold row_drop. induction r as [|[k v] r IH]; [done|].
  rewrite filter_cons. simpl. rewrite decide_True.
  - f_equal. apply IH. eapply Forall_impl; [exact Hcs|].
    simpl. intros c Hc. by apply not_elem_of_cons in Hc as [_ ?].
  - intros Hk. rewrite Forall_forall in Hcs. specialize (Hcs k Hk).
    apply Hcs. simpl. left.
Qed.

Lemma row_drop_key_absent c cs r : c ∈ cs → c ∉ (row_drop cs r).*1.
Proof.
  intros Hc. rewrite row_drop_keys, list_elem_of_filter. intros [Hn _]. by apply Hn.
Qed.

Lemma row_drop_cons_keep cs k v r :
  k ∉ cs → row_drop cs ((k, v) :: r) = (k, v) :: row_drop cs r.
Proof. intros Hk. unfold row_drop. by rewrite filter_cons, decide_True. Qed.

Lemma row_drop_cons_drop cs k v r :
  k ∈ cs → row_drop cs ((k, v) :: r) = row_drop cs r.
Proof.
  intros Hk. unfold row_drop. rewrite filter_cons, decide_False; [done|].
  simpl. by intros Hn.
Qed.

Lemma row_drop_app cs r1 r2 :
  row_drop cs (r1 ++ r2) = row_drop cs r1 ++ row_drop cs r2.
Proof. apply filter_app. Qed.

Lemma range_index_fields rs : (range_index rs).*2 = rs.*2.
Proof. apply (imap_fields (λ i _, Num (Z.of_nat i))). Qed.

Lemma range_index_labels rs :
  (range_index rs).*1 = (λ i, Num (Z.of_nat i)) <$> seq 0 (length rs).
Proof.
  unfold range_index. rewrite fmap_imap.
  rewrite (imap_ext _ (λ i _, Num (Z.of_nat i))) by done.
  apply imap_seq_0.
Qed.

Lemma length_range_index rs : length (range_index rs) = length rs.
Proof. apply length_imap. Qed.

Lemma reindex_keys cols r : (reindex cols r).*1 = cols.
Proof.
  unfold reindex. rewrite <- list_fmap_compose. apply list_fmap_id.
Qed.

Lemma row_get_reindex c cols r :
  row_get c (reindex cols r) = if decide (c ∈ cols) then row_get c r else NaN.
Proof.
  unfold reindex. induction cols as [|k cols IH]; csimpl.
  - done.
  - destruct (decide (k = c)) as [->|Hne].
    + by rewrite decide_True by left.
    + rewrite IH. destruct (decide (c ∈ cols)) as [Hc|Hc].
      * by rewrite decide_True by (by right).
      * rewrite decide_False; [done|]. rewrite elem_of_cons. naive_solver.
Qed.

(** A row is unchanged by re-indexing it to its own distinct columns. *)
Lemma reindex_id r : NoDup r.*1 → reindex r.*1 r = r.
Proof.
  unfold reindex. induction r as [|[k v] r IH]; [done|].
  rewrite fmap_cons, NoDup_cons. intros [Hk Hnd]. csimpl.
  rewrite decide_True by done. f_equal.
  rewrite <- (IH Hnd) at 2. apply Forall_fmap_ext, Forall_forall.
  intros c Hc. rewrite decide_False; [done|]. by intros ->.
Qed.

Lemma set_index_row_fields c (rs : list (cell * Row)) :
  set_index_row c <$> rs = (λ r, (row_get c r, row_drop [c] r)) <$> rs.*2.
Proof. by rewrite <- list_fmap_compose. Qed.

Lemma set_index_labels c (rs : list (cell * Row)) :
  (set_index_row c <$> rs).*1 = (λ e, row_get c e.2) <$> rs.
Proof. by rewrite <- list_fmap_compose. Qed.

Lemma filter_fields (p : Row → bool) (rs : list (cell * Row)) :
  (filter (λ e, p e.2) rs).*2 = filter (λ r, p r) rs.*2.
Proof. by rewrite filter_fmap. Qed.

Lemma filter_fields_Prop (P : Row → Prop) `{∀ r, Decision (P r)} (rs : list (cell * Row)) :
  (filter (λ e, P e.2) rs).*2 = filter P rs.*2.
Proof. by rewrite filter_fmap. Qed.

Lemma fmap_fields_2 (g : Row → Row) (rs : list (cell * Row)) :
  ((λ e, (e.1, g e.2)) <$> rs).*2 = g <$> rs.*2.
Proof. by rewrite <- !list_fmap_compose. Qed.

(** ** The operations of pandas *)

Lemma df_drop_Some cs df df' :
  df_drop cs df = Some df' ↔
  has_columns cs df ∧
  df' = mkDF (index_name df) (filter (λ c, c ∉ cs) (columns df))
             ((λ e, (e.1, row_drop cs e.2)) <$> rows df).
Proof.
  unfold df_drop. destruct (decide (has_columns cs df)) as [H|H].
  - split; [by intros [= <-]|by intros [_ ->]].
  - split; [done|by intros [? _]].
Qed.

Lemma set_index_Some c df df' :
  set_index c df = Some df' ↔
  c ∈ columns df ∧
  df' = mkDF (Some c) (filter (λ k, k ∉ [c]) (columns df)) (set_index_row c <$> rows df).
Proof.
  unfold set_index. destruct (decide (c ∈ columns df)) as [H|H].
  - split; [by intros [= <-]|by intros [_ ->]].
  - split; [done|by intros [? _]].
Qed.

Lemma reset_index_Some df df' :
  reset_index df = Some df' ↔
  (reset_name df ∉ columns df) ∧
  df' = mkDF None (reset_name df :: columns df)
          (range_index ((λ e, (e.1, (reset_name df, e.1) :: e.2)) <$> rows df)).
Proof.
  unfold reset_index. destruct (decide (reset_name df ∈ columns df)) as [H|H].
  - split; [done|by intros [? _]].
  - split; [by intros [= <-]|by intros [_ ->]].
Qed.

Lemma groupby_agg_Some key c g df s :
  groupby_agg key c g df = Some s ↔
  has_columns [key; c] df ∧
  s = (λ k, (k, g ((λ e, row_get c e.2) <$> group key k df))) <$> group_keys key df.
Proof.
  unfold groupby_agg. destruct (decide (has_columns [key; c] df)) as [H|H].
  - split; [by intros [= <-]|by intros [_ ->]].
  - split; [done|by intros [? _]].
Qed.

Lemma join_on_Some key name s df df' :
  join_on key name s df = Some df' ↔
  (key ∈ columns df ∧ name ∉ columns df) ∧
  df' = mkDF (index_name df) (columns df ++ [name])
          ((λ e, (e.1, e.2 ++ [(name, default NaN (series_get (row_get key e.2) s))]))
             <$> rows df).
Proof.
  unfold join_on. destruct (decide (key ∈ columns df ∧ name ∉ columns df)) as [H|H].
  - split; [by intros [= <-]|by intros [_ ->]].
  - split; [done|by intros [? _]].
Qed.

(** A table indexed by a column no longer holds it as a column. *)
Lemma set_index_indexed c df df' :
  set_index c df = Some df' →
  index_name df' = Some c ∧ (c ∉ columns df')
  ∧ Forall (λ e, c ∉ e.2.*1) (rows df').
Proof.
  intros [_ ->]%set_index_Some. cbn. split; [done|]. split.
  - rewrite list_elem_of_filter. intros [Hn _]. apply Hn. left.
  - apply Forall_fmap, Forall_forall. intros e _. simpl.
    apply row_drop_key_absent. left.
Qed.

Lemma elem_of_group_keys k key df :
  k ∈ group_keys key df ↔ k ≠ NaN ∧ ∃ e, e ∈ rows df ∧ row_get key e.2 = k.
Proof.
  unfold group_keys, col.
  rewrite merge_sort_Permutation, elem_of_unique, list_elem_of_filter, list_elem_of_fmap.
  naive_solver.
Qed.

(** Looking a key up in a series computed per key. *)
Lemma series_get_fmap (g : cell → cell) k ks :
  series_get k ((λ k', (k', g k')) <$> ks) = if decide (k ∈ ks) then Some (g k) else None.
Proof.
  induction ks as [|k' ks IH]; csimpl; [done|].
  destruct (decide (k' = k)) as [->|Hne].
  - by rewrite decide_True by left.
  - rewrite IH. destruct (decide (k ∈ ks)) as [Hk|Hk].
    + by rewrite decide_True by (by right).
    + rewrite decide_False; [done|]. rewrite elem_of_cons. naive_solver.
Qed.

(** X1: a well-formed table indexed by the column [c] gets back exactly
    as it was when its index is reset and [c] is made the index again:
    same index labels, same columns, same rows.  The time-dependent split
    relies on this to give the train set its [entryID] index back. *)
Theorem reset_set_index_round_trip c df :
  wf df → index_name df = Some c → c ∉ columns df →
  reset_index df ≫= set_index c = Some df.
Proof.
  intros Hwf Hname Hc. unfold reset_index, reset_name. rewrite Hname.
  rewrite decide_False by done. cbn [mbind option_bind].
  unfold set_index. cbn [columns rows]. rewrite decide_True by left.
  destruct df as [name cols rs]. cbn in *. subst name. do 2 f_equal.
  - rewrite decide_False by set_solver.
    apply filter_id, Forall_forall. intros k Hk. set_solver.
  - rewrite set_index_row_fields, range_index_fields, <- !list_fmap_compose.
    rewrite <- (list_fmap_id rs) at 2. apply Forall_fmap_ext.
    eapply Forall_impl; [exact Hwf|]. intros [i r] Hr.
    cbn [fst snd compose columns row_get id] in *.
    rewrite decide_True by done. f_equal.
    rewrite row_drop_cons_drop by left. apply row_drop_absent.
    repeat constructor. by rewrite Hr.
Qed.

Lemma reset_set_index_round_trip_witness :
  reset_index failing_record ≫= set_index "entryID" = Some failing_record.
Proof.
  apply reset_set_index_round_trip.
  - by apply (bool_decide_unpack _).
  - reflexivity.
  - by apply (bool_decide_unpack _).
Defined.

(** ** Aggregates *)

(** The extrema of a group. *)
Lemma elem_of_numbers z l : z ∈ numbers l ↔ Num z ∈ l.
Proof.
  unfold numbers. rewrite list_elem_of_omap. split.
  - intros ([|z'|s] & Hc & Hz); naive_solver.
  - intros Hz. by exists (Num z).
Qed.

Lemma foldr_min_spec z zs :
  foldr Z.min z zs ∈ z :: zs ∧ ∀ x, x ∈ z :: zs → (foldr Z.min z zs ≤ x)%Z.
Proof.
  induction zs as [|y zs [IH1 IH2]]; simpl.
  - split; [left|]. intros x ->%list_elem_of_singleton. lia.
  - split.
    + destruct (Z.min_spec y (foldr Z.min z zs)) as [[_ ->]|[_ ->]].
      * right; left.
      * apply elem_of_cons in IH1 as [->|?]; [left|right; by right].
    + intros x Hx. assert (x = y ∨ x ∈ z :: zs) as [->|Hx'].
      { rewrite !elem_of_cons in *. naive_solver. }
      * lia.
      * specialize (IH2 x Hx'). lia.
Qed.


Lemma agg_min_is_min l mn :
  Num mn ∈ l → (∀ c, Num c ∈ l → (mn ≤ c)%Z) → agg_min l = Num mn.
Proof.
  intros Hin Hle. unfold agg_min.
  destruct (numbers l) as [|z zs] eqn:Hn.
  - apply elem_of_numbers in Hin. rewrite Hn in Hin. by apply elem_of_nil in Hin.
  - destruct (foldr_min_spec z zs) as [H1 H2]. f_equal.
    rewrite <- Hn in H1, H2. apply elem_of_numbers in Hin.
    apply elem_of_numbers, Hle in H1. specialize (H2 _ Hin). lia.
Qed.


Lemma numbers_Num zs : numbers (Num <$> zs) = zs.
Proof. induction zs as [|z zs IH]; [done|]. csimpl. by rewrite IH. Qed.


(** ** The records of a machine *)

Lemma machine_rows_set_index m (rs : list (cell * Row)) :
  machine_rows m (set_index_row "entryID" <$> rs)
  = set_index_row "entryID" <$> machine_rows m rs.
Proof.
  unfold machine_rows. rewrite filter_fmap. f_equal.
  apply filter_ext_Forall, Forall_forall. intros e _. simpl.
  by rewrite row_get_row_drop by set_solver.
Qed.

Lemma machine_rows_isin m assets (rs : list (cell * Row)) :
  machine_rows m (filter (λ e, isin assets e.2) rs)
  = if decide (m ∈ assets) then machine_rows m rs else [].
Proof.
  unfold machine_rows, isin. rewrite list_filter_filter.
  destruct (decide (m ∈ assets)) as [Hm|Hm].
  - apply filter_ext_Forall, Forall_forall. intros e _. split; [by intros [? _]|].
    intros <-. split; [done|]. by apply bool_decide_pack.
  - induction rs as [|e rs IH]; [done|].
    rewrite filter_cons, decide_False; [done|].
    intros [<- He]. by apply bool_decide_unpack in He.
Qed.

Lemma machine_rows_absent m data :
  m ∉ col "machineID" data → machine_rows m (rows data) = [].
Proof.
  intros Hm. unfold machine_rows.
  destruct (filter _ (rows data)) as [|e l] eqn:Hf; [done|]. destruct Hm.
  assert (e ∈ filter (λ e' : cell * Row, row_get "machineID" e'.2 = m) (rows data))
    as [<- He]%list_elem_of_filter by (rewrite Hf; left).
  unfold col. apply list_elem_of_fmap. eauto.
Qed.


Lemma per_machine_lookup g rs m :
  series_get m (per_machine g rs)
  = if decide (m ≠ NaN ∧ machine_rows m rs ≠ [])
    then Some (g (cycles (machine_rows m rs)))
    else None.
Proof.
  unfold per_machine.
  rewrite_beta (series_get_fmap (λ k, g (cycles (machine_rows k rs))) m
    (merge_sort label_leb
       (unique (filter (λ k, k ≠ NaN) ((λ e : cell * Row, row_get "machineID" e.2) <$> rs))))).
  apply decide_ext.
  rewrite merge_sort_Permutation, elem_of_unique, list_elem_of_filter, list_elem_of_fmap.
  unfold machine_rows. split.
  - intros [Hm (e & -> & He)]. split; [done|]. intros Hnil.
    assert (e ∈ filter (λ e' : cell * Row, row_get "machineID" e'.2 = row_get "machineID" e.2) rs)
      as Hin by (by apply list_elem_of_filter).
    rewrite Hnil in Hin. by apply elem_of_nil in Hin.
  - intros [Hm Hne]. split; [done|].
    destruct (filter _ rs) as [|e l] eqn:Hf; [done|].
    assert (e ∈ filter (λ e' : cell * Row, row_get "machineID" e'.2 = m) rs) as Hin
      by (rewrite Hf; left).
    apply list_elem_of_filter in Hin as [<- Hin]. eauto.
Qed.

(** ** Label assignment *)

Lemma xy_Some data w X Y :
  xy data w = Some (X, Y) ↔
  has_columns columns_to_drop data ∧
  X = mkDF None (filter (λ c, c ∉ columns_to_drop) (columns data))
        ((λ e, (e.1, row_drop columns_to_drop e.2)) <$> range_index (rows data)) ∧
  Y = (λ e, f w e.2) <$> rows data.
Proof.
  unfold xy. rewrite bind_Some. setoid_rewrite df_drop_Some.
  unfold apply_rows, reset_index_drop, has_columns. simpl.
  assert ((λ e : cell * Row, f w e.2) <$> range_index (rows data)
          = (λ e, f w e.2) <$> rows data) as ->.
  { by rewrite !(fmap_fields (f w)), range_index_fields. }
  split.
  - intros (X' & [? ->] & [= <- <-]). done.
  - intros (? & -> & ->). eauto.
Qed.

(** The label the code assigns, case by case: a failure code only for a
    non-zero [rul] below the horizon. *)
Lemma f_cases w row :
  f w row = match row_get "rul" row with
            | Num z => if decide (z ≠ 0 ∧ z < w)%Z then row_get "failure" row else Str ""
            | _ => Str ""
            end.
Proof.
  unfold f. destruct (row_get "rul" row) as [|z|s]; simpl.
  - done.
  - case_decide as H.
    + destruct H as [H0 Hw]. apply Z.eqb_neq in H0. apply Z.ltb_lt in Hw.
      rewrite H0, Hw. done.
    + destruct (Z.eqb_spec z 0) as [->|H0]; simpl; [done|].
      destruct (Z.ltb_spec z w); [|done]. destruct H. done.
  - by rewrite andb_false_r.
Qed.

(** A record at the horizon is unlabelled. *)
Lemma f_at_horizon w row : row_get "rul" row = Num w → f w row = Str "".
Proof. intros H. rewrite f_cases, H. rewrite decide_False; [done|lia]. Qed.

(** A record one cycle inside the horizon carries its failure code, unless
    that cycle is the failure itself ([rul = 0]). *)
Lemma f_below_horizon w row :
  row_get "rul" row = Num (w - 1) → w ≠ 1%Z → f w row = row_get "failure" row.
Proof. intros H Hw. rewrite f_cases, H. rewrite decide_True; [done|lia]. Qed.

Lemma f_zero_rul w row : row_get "rul" row = Num 0 → f w row = Str "".
Proof. intros H. rewrite f_cases, H. rewrite decide_False; [done|lia]. Qed.

(** C1, at the input where the code departs from it: a record of the
    failing cycle itself ([rul = 0], failure code [F1]) lies inside the
    horizon [w = 7], yet the label the notebook assigns is the empty
    string, not [F1]. *)
Theorem xy_zero_rul_unlabelled :
  (snd <$> xy failing_record 7) = Some [Str ""]
  ∧ col "failure" failing_record = [Str "F1"]
  ∧ col "rul" failing_record = [Num 0].
Proof. by vm_compute. Qed.

(** C7: the label assignor runs exactly on the tables that hold the five
    columns, and the features it returns hold none of [cycle], [failure],
    [rul], [sequenceID], [machineID], neither as a column of the table
    nor as a field of any row. *)
Theorem xy_features_exclude_dropped data w :
  (is_Some (xy data w) ↔ has_columns columns_to_drop data)
  ∧ ∀ X Y c, xy data w = Some (X, Y) → c ∈ columns_to_drop →
      (c ∉ columns X) ∧ Forall (λ e, c ∉ e.2.*1) (rows X).
Proof.
  split.
  - split.
    + intros [[X Y] H]. by apply xy_Some in H as [? _].
    + intros H. eexists (_, _). apply xy_Some. eauto.
  - intros X Y c (_ & -> & _)%xy_Some Hc. simpl. split.
    + rewrite list_elem_of_filter. intros [Hn _]. by apply Hn.
    + apply Forall_fmap, Forall_forall. intros e _. simpl.
      by apply row_drop_key_absent.
Qed.

Lemma xy_features_exclude_dropped_witness :
  "rul" ∉ columns (mkDF None ["s1"] [(Num 0, [("s1", Num 1000)])]).
Proof.
  refine (proj1 (proj2 (xy_features_exclude_dropped failing_record 7) _
                   [Str ""] "rul" _ _)).
  - reflexivity.
  - unfold columns_to_drop. set_solver.
Defined.

(** X2: the label assignor neither drops nor reorders records.  Features
    and labels have one entry per input record, in the order of the
    input: at every position the features carry that position as index
    label and the record's own value in every column that is not dropped,
    and the label is the label of that record. *)
Theorem xy_rows_aligned data w X Y :
  xy data w = Some (X, Y) →
  length (rows X) = length (rows data) ∧ length Y = length (rows data)
  ∧ ∀ i e, rows data !! i = Some e →
      ∃ x, rows X !! i = Some (Num (Z.of_nat i), x)
           ∧ Y !! i = Some (f w e.2)
           ∧ ∀ c, c ∉ columns_to_drop → row_get c x = row_get c e.2.
Proof.
  intros (_ & -> & ->)%xy_Some. cbn [rows].
  rewrite !length_fmap, length_range_index. split; [done|]. split; [done|].
  intros i e Hi. exists (row_drop columns_to_drop e.2).
  rewrite !list_lookup_fmap. unfold range_index. rewrite list_lookup_imap, Hi.
  split; [done|]. split; [done|]. intros c Hc. by apply row_get_row_drop.
Qed.

Lemma xy_rows_aligned_witness :
  ∃ X Y, xy two_machines 2 = Some (X, Y)
         ∧ length (rows X) = length (rows two_machines)
         ∧ length Y = length (rows two_machines).
Proof.
  eexists _, _. split; [reflexivity|].
  destruct (xy_rows_aligned two_machines 2 _ _ eq_refl) as (HX & HY & _).
  by split.
Defined.

(** X3: the labels the notebook assigns.  A record without [rul] is
    labelled with the empty string.  A record with a numeric [rul] is
    labelled with its own failure code when [rul] is not zero and lies
    strictly below the horizon, and with the empty string otherwise: at
    [rul = 0], and from [rul = w] on. *)
Theorem xy_label_rule data w X Y :
  xy data w = Some (X, Y) →
  ∀ i e, rows data !! i = Some e →
    (row_get "rul" e.2 = NaN → Y !! i = Some (Str ""))
    ∧ (∀ z, row_get "rul" e.2 = Num z →
         Y !! i = Some (if decide (z ≠ 0 ∧ z < w)%Z
                        then row_get "failure" e.2 else Str "")).
Proof.
  intros (_ & _ & ->)%xy_Some i e Hi.
  rewrite list_lookup_fmap, Hi. cbn [fmap option_fmap option_map].
  rewrite f_cases. split.
  - by intros ->.
  - by intros z ->.
Qed.

Lemma xy_label_rule_witness :
  ∃ X Y, xy two_machines 2 = Some (X, Y) ∧ Y !! 1%nat = Some (Str "F1").
Proof.
  eexists _, _. split; [reflexivity|].
  edestruct (xy_label_rule two_machines 2 _ _ eq_refl 1%nat _ eq_refl)
    as (_ & H).
  exact (H 1%Z eq_refl).
Defined.

(** ** Reading input data *)

Lemma pd_concat_Some dfs df :
  pd_concat dfs = Some df ↔
  dfs ≠ [] ∧
  df = mkDF None (unique (mjoin (columns <$> dfs)))
         (range_index
            (mjoin ((λ d, (λ e, (e.1, reindex (unique (mjoin (columns <$> dfs))) e.2))
                            <$> rows d) <$> dfs))).
Proof.
  destruct dfs as [|d dfs].
  - split; [done|by intros [? _]].
  - split; [by intros [= <-]|by intros [_ ->]].
Qed.

Lemma pd_concat_rows dfs df :
  pd_concat dfs = Some df →
  columns df = unique (mjoin (columns <$> dfs))
  ∧ (rows df).*2 = reindex (columns df) <$> mjoin ((λ d, (rows d).*2) <$> dfs).
Proof.
  intros [_ ->]%pd_concat_Some. split; [done|].
  cbn [rows columns]. rewrite range_index_fields.
  set (cols := unique _). rewrite !fmap_mjoin, <- !list_fmap_compose.
  f_equal. apply list_fmap_ext. intros _ d' _. simpl.
  by rewrite <- !list_fmap_compose.
Qed.


(** C8, refuted as stated: two feature tables with different column sets
    are loaded without any error; each row gets a missing value in the
    column its table lacks. *)
Lemma load_accepts_differing_columns :
  "s1" ∈ columns source_a ∧ ("s1" ∉ columns source_b)
  ∧ load [source_a; source_b]
    = Some (mkDF None ["entryID"; "s1"; "s2"]
              [(Num 0, [("entryID", Num 1); ("s1", Num 10); ("s2", NaN)]);
               (Num 1, [("entryID", Num 2); ("s1", NaN); ("s2", Num 20)])]).
Proof.
  split; [|split].
  - simpl. set_solver.
  - simpl. set_solver.
  - reflexivity.
Qed.

(** C8, amended: loading fails only when there is no source table, never
    on account of the columns.  The loaded table spans the union of the
    sources' columns, is indexed by position, and holds the sources' rows
    one after the other, in order and without deduplication, each
    re-indexed to the union (a missing value where its table lacks a
    column).  For sources that share one list of distinct columns, the
    rows are exactly the sources' rows. *)
Theorem load_concatenates dfs :
  (load dfs = None ↔ dfs = [])
  ∧ ∀ df, load dfs = Some df →
      wf df
      ∧ (∀ c, c ∈ columns df ↔ ∃ d, d ∈ dfs ∧ c ∈ columns d)
      ∧ (rows df).*1 = (λ i, Num (Z.of_nat i)) <$> seq 0 (length (rows df))
      ∧ (rows df).*2 = reindex (columns df) <$> mjoin ((λ d, (rows d).*2) <$> dfs)
      ∧ (∀ cols, NoDup cols → Forall (λ d, columns d = cols ∧ wf d) dfs →
           columns df = cols
           ∧ (rows df).*2 = mjoin ((λ d, (rows d).*2) <$> dfs)).
Proof.
  unfold load. split.
  - by destruct dfs.
  - intros df Hdf. pose proof (pd_concat_rows _ _ Hdf) as [Hcols Hrows].
    split; [|split; [|split; [|split]]].
    + unfold wf. apply Forall_forall. intros e He.
      assert (e.2 ∈ (rows df).*2) as He2 by (apply list_elem_of_fmap; eauto).
      rewrite Hrows in He2. apply list_elem_of_fmap in He2 as (r & -> & _).
      apply reindex_keys.
    + intros c. rewrite Hcols, elem_of_unique, list_elem_of_join. split.
      * intros (l & Hc & (d & -> & Hd)%list_elem_of_fmap). eauto.
      * intros (d & Hd & Hc). exists (columns d). split; [done|].
        apply list_elem_of_fmap. eauto.
    + apply pd_concat_Some in Hdf as [_ ->].
      cbn [rows]. by rewrite range_index_labels, length_range_index.
    + done.
    + intros cols Hnd Hall.
      assert (columns df = cols) as Hc.
      { rewrite Hcols. destruct dfs as [|d dfs]; [done|].
        apply Forall_cons in Hall as [[Hd _] Hall]. csimpl. rewrite Hd.
        apply unique_app_included; [done|].
        intros c (l & Hc & (d' & -> & Hd')%list_elem_of_fmap)%list_elem_of_join.
        rewrite Forall_forall in Hall. by destruct (Hall d' Hd') as [<- _]. }
      split; [done|]. rewrite Hrows, Hc.
      rewrite <- (list_fmap_id (mjoin _)) at 2.
      apply Forall_fmap_ext, Forall_join, Forall_fmap, Forall_forall.
      intros d Hd. rewrite Forall_forall in Hall. destruct (Hall d Hd) as [Hdc Hwf].
      apply Forall_fmap. eapply Forall_impl; [exact Hwf|].
      intros e He. simpl in *. rewrite <- Hdc, <- He. apply reindex_id.
      by rewrite He, Hdc.
Qed.

Lemma load_concatenates_witness :
  (rows (mkDF None ["entryID"; "s1"]
           [(Num 0, [("entryID", Num 1); ("s1", Num 10)]);
            (Num 1, [("entryID", Num 1); ("s1", Num 10)])])).*2
  = mjoin ((λ d, (rows d).*2) <$> [source_a; source_a]).
Proof.
  refine (proj2 (proj2 (proj2 (proj2 (proj2 (proj2 (load_concatenates
            [source_a; source_a]) _ _)))) ["entryID"; "s1"] _ _)).
  - reflexivity.
  - repeat constructor; set_solver.
  - by apply (bool_decide_unpack _).
Defined.

(** ** The sizes of a split *)

Lemma binary_round_aux_unsigned m e l :
  unsigned (binary_round_aux prec emax false m e l).
Proof.
  unfold binary_round_aux.
  destruct (shr_fexp _ _ _ _ _) as [mrs' e'].
  destruct (shr_fexp _ _ _ _ _) as [mrs'' e''].
  destruct (shr_m mrs''); [done| |done]. by case_match.
Qed.

Lemma float_of_int_unsigned (n : nat) : unsigned (float_of_int (Z.of_nat n)).
Proof.
  unfold float_of_int, binary_normalize.
  destruct (Z.of_nat n) eqn:Hn; [done| |lia].
  unfold binary_round. destruct (shl_align _ _ _) as [mz ez].
  apply binary_round_aux_unsigned.
Qed.

Lemma SFmul_unsigned x y :
  unsigned x → unsigned y → unsigned (SFmul prec emax x y).
Proof.
  destruct x as [sx|sx| |sx mx ex], y as [sy|sy| |sy my ey]; simpl;
    try done; try (by intros -> ->).
  intros -> ->. apply binary_round_aux_unsigned.
Qed.

Lemma ceil_unsigned x z : unsigned x → ceil x = Some z → (0 ≤ z)%Z.
Proof.
  destruct x as [s|s| |s m e]; simpl; [by intros _ [= <-]|done|done|].
  intros -> [= <-]. destruct (0 <=? e)%Z eqn:He.
  - apply Z.leb_le in He. apply Z.mul_nonneg_nonneg; [lia|]. by apply Z.pow_nonneg.
  - apply Z.leb_gt in He. apply Z.opp_nonneg_nonpos, Z.lt_le_incl.
    apply Z.div_lt_upper_bound; [apply Z.pow_pos_nonneg; lia|lia].
Qed.

Lemma SFleb_zero_unsigned x : SFleb x (float_of_int 0) = false → unsigned x.
Proof. by destruct x as [s|[]| |[] m e]. Qed.

(** The sizes that [train_test_split] accepts divide the samples, and
    the train part is not empty. *)
Lemma validate_shuffle_split_Some n test_size n_train n_test :
  validate_shuffle_split n test_size = Some (n_train, n_test) →
  (0 < n_train)%nat ∧ (n_train + n_test = n)%nat.
Proof.
  unfold validate_shuffle_split. cbv zeta. intros H.
  apply bind_Some in H as ([H0 _] & _ & H).
  apply bind_Some in H as (z & Hz & H).
  apply bind_Some in H as (Htr & _ & [= <- <-]).
  apply ceil_unsigned in Hz; [lia|].
  apply SFmul_unsigned; [by apply SFleb_zero_unsigned|apply float_of_int_unsigned].
Qed.

Lemma validate_shuffle_split_n_test n test_size n_train n_test :
  validate_shuffle_split n test_size = Some (n_train, n_test) →
  ceil (SFmul prec emax (float_of_Q test_size) (float_of_int (Z.of_nat n)))
  = Some (Z.of_nat n_test).
Proof.
  unfold validate_shuffle_split. cbv zeta. intros H.
  apply bind_Some in H as ([H0 _] & _ & H).
  apply bind_Some in H as (z & Hz & H).
  apply bind_Some in H as (Htr & _ & [= <- <-]).
  rewrite Hz. f_equal. symmetry. apply Z2Nat.id.
  apply ceil_unsigned in Hz; [done|].
  apply SFmul_unsigned; [by apply SFleb_zero_unsigned|apply float_of_int_unsigned].
Qed.

Lemma train_test_split_ordered_Some {A} test_size (l tr te : list A) :
  train_test_split_ordered test_size l = Some (tr, te) →
  ∃ n_train n_test,
    validate_shuffle_split (length l) test_size = Some (n_train, n_test)
    ∧ tr = take n_train l ∧ te = drop n_train l.
Proof.
  unfold train_test_split_ordered. intros H.
  apply bind_Some in H as ([n_train n_test] & Hv & [= <- <-]).
  exists n_train, n_test. split; [done|]. split; [done|].
  apply validate_shuffle_split_Some in Hv as [_ Hn].
  apply take_ge. rewrite length_drop. lia.
Qed.

Lemma train_test_split_ordered_is_Some {A} test_size (l : list A) :
  is_Some (validate_shuffle_split (length l) test_size) →
  is_Some (train_test_split_ordered test_size l).
Proof.
  intros [[n_train n_test] Hv]. unfold train_test_split_ordered.
  by rewrite Hv.
Qed.

Lemma train_test_split_shuffled_is_Some {A} permutation test_size (l : list A) :
  is_Some (validate_shuffle_split (length l) test_size) →
  is_Some (train_test_split_shuffled permutation test_size l).
Proof.
  intros [[n_train n_test] Hv]. unfold train_test_split_shuffled.
  by rewrite Hv.
Qed.

(** ** The time-dependent split *)

Lemma train_test_split_ordered_app {A} test_size (l tr te : list A) :
  train_test_split_ordered test_size l = Some (tr, te) → tr ++ te = l.
Proof.
  intros (n_train & n_test & _ & -> & ->)%train_test_split_ordered_Some.
  apply take_drop.
Qed.

Lemma length_sorted_entries (data : DataFrame) :
  length (merge_sort (λ a b : cell * Row, label_leb a.1 b.1)
            (set_index_row "entryID" <$> rows data))
  = length (rows data).
Proof. by rewrite merge_sort_Permutation, length_fmap. Qed.

(** The rows that leave [exclude_lookback] are the candidate train rows
    [tr] that survive, unchanged: the index and the [max_cycle] column
    that are added on the way are taken away again. *)
Lemma exclusion_rows s (tr : list (cell * Row)) :
  Forall (λ e, ("entryID" ∉ e.2.*1) ∧ ("max_cycle" ∉ e.2.*1)) tr →
  set_index_row "entryID"
    <$> ((λ e, (e.1, row_drop ["max_cycle"] e.2))
           <$> filter (λ e, keep_lt e.2)
                 ((λ e, (e.1, e.2 ++ [("max_cycle",
                                default NaN (series_get (row_get "machineID" e.2) s))]))
                    <$> range_index ((λ e, (e.1, ("entryID", e.1) :: e.2)) <$> tr)))
  = filter (λ e, survives s e) tr.
Proof.
  intros Hwf.
  pose (J := λ r : Row, r ++ [("max_cycle",
                 default NaN (series_get (row_get "machineID" r) s))]).
  pose (R := λ e : cell * Row, ("entryID", e.1) :: e.2).
  change (λ e : cell * Row, (e.1, e.2 ++ [("max_cycle",
            default NaN (series_get (row_get "machineID" e.2) s))]))
    with (λ e : cell * Row, (e.1, J e.2)).
  rewrite set_index_row_fields, (fmap_fields_2 (row_drop ["max_cycle"])).
  rewrite (filter_fields keep_lt), (fmap_fields_2 J), range_index_fields.
  rewrite <- (list_fmap_compose (λ e, (e.1, ("entryID", e.1) :: e.2)) snd).
  change (snd ∘ (λ e : cell * Row, (e.1, ("entryID", e.1) :: e.2))) with R.
  rewrite <- (list_fmap_compose R J), filter_fmap, <- !list_fmap_compose.
  rewrite <- (list_fmap_id (filter (λ e, survives s e) tr)).
  assert (∀ e : cell * Row, "max_cycle" ∉ e.2.*1 →
            keep_lt (J (R e)) = survives s e) as Hkeep.
  { intros [l r] Hmc. unfold keep_lt, survives, J, R. simpl.
    rewrite row_get_app_absent by done. by rewrite !row_get_app_ne by done. }
  rewrite (filter_ext_Forall _ (λ e, survives s e)).
  - apply Forall_fmap_ext, Forall_forall. intros [l r] [_ Hin]%list_elem_of_filter.
    rewrite Forall_forall in Hwf. destruct (Hwf _ Hin) as [Heid Hmc]. simpl in *.
    unfold J, R. simpl.
    rewrite row_drop_cons_keep, row_drop_app by set_solver.
    rewrite (row_drop_cons_drop ["max_cycle"]) by set_solver.
    rewrite (row_drop_absent ["max_cycle"] r) by (by repeat constructor).
    rewrite app_nil_r, row_drop_cons_drop by set_solver.
    by rewrite row_drop_absent by (by repeat constructor).
  - eapply Forall_impl; [exact Hwf|]. intros e [_ Hmc]. simpl.
    by rewrite <- (Hkeep e Hmc).
Qed.

(** Grouping the re-indexed test table by machine sees the machines and
    cycles of the test rows. *)
Lemma reset_group_cycles cols k (te : list (cell * Row)) :
  (λ e, row_get "cycle" e.2)
    <$> group "machineID" k
          (mkDF None cols (range_index ((λ e, (e.1, ("entryID", e.1) :: e.2)) <$> te)))
  = cycles (machine_rows k te).
Proof.
  unfold group, cycles, machine_rows. cbn [rows].
  rewrite !(fmap_fields (row_get "cycle")).
  rewrite_beta (filter_fields_Prop (λ r, row_get "machineID" r = k) te).
  rewrite_beta (filter_fields_Prop (λ r, row_get "machineID" r = k)
                  (range_index ((λ e : cell * Row, (e.1, ("entryID", e.1) :: e.2)) <$> te))).
  rewrite range_index_fields, <- list_fmap_compose, filter_fmap, <- list_fmap_compose.
  rewrite_beta (filter_fmap snd (λ r : Row, row_get "machineID" r = k) te).
  by rewrite <- list_fmap_compose.
Qed.

Lemma reset_group_keys cols (te : list (cell * Row)) :
  group_keys "machineID"
    (mkDF None cols (range_index ((λ e, (e.1, ("entryID", e.1) :: e.2)) <$> te)))
  = merge_sort label_leb
      (unique (filter (λ k, k ≠ NaN) ((λ e, row_get "machineID" e.2) <$> te))).
Proof.
  unfold group_keys, col. cbn [rows].
  rewrite (fmap_fields (row_get "machineID")), range_index_fields.
  by rewrite <- !list_fmap_compose.
Qed.

Lemma time_dependent_split_eq lookback test_size data :
  wf data → time_ok data →
  let sorted := merge_sort (λ a b, label_leb a.1 b.1)
                  (set_index_row "entryID" <$> rows data) in
  let cols := filter (λ k, k ∉ ["entryID"]) (columns data) in
  time_dependent_split lookback test_size data
  = '(tr, te) ← train_test_split_ordered test_size sorted;
    Some (mkDF (Some "entryID") cols
            (filter (λ e, survives (min_cycles lookback te) e) tr),
          mkDF (Some "entryID") cols te).
Proof.
  intros Hwf [Hcols Hmc] sorted cols.
  apply Forall_cons in Hcols as [Heid Hcols].
  apply Forall_cons in Hcols as [Hmid Hcols].
  apply Forall_cons in Hcols as [Hcyc _].
  assert ("entryID" ∉ cols) as Hneid.
  { unfold cols. rewrite list_elem_of_filter. intros [Hn _]. apply Hn. left. }
  assert ("machineID" ∈ cols) as Hmid'.
  { unfold cols. rewrite list_elem_of_filter. split; [set_solver|done]. }
  assert ("cycle" ∈ cols) as Hcyc'.
  { unfold cols. rewrite list_elem_of_filter. split; [set_solver|done]. }
  assert ("max_cycle" ∉ cols) as Hmc'.
  { unfold cols. rewrite list_elem_of_filter. by intros [_ ?]. }
  unfold time_dependent_split, set_index at 1. rewrite decide_True by done.
  cbn [mbind option_bind sort_index rows columns index_name].
  fold sorted. fold cols.
  destruct (train_test_split_ordered test_size sorted) as [[tr te]|] eqn:Hsplit;
    [|done].
  cbn [mbind option_bind].
  unfold exclude_lookback, reset_index, reset_name. cbn [index_name columns rows].
  rewrite !decide_False by done. cbn [mbind option_bind].
  unfold groupby_agg. rewrite decide_True by (repeat constructor; set_solver).
  cbn [mbind option_bind]. unfold join_on. cbn [index_name columns rows].
  rewrite decide_True by set_solver. cbn [mbind option_bind].
  unfold df_drop, df_filter. cbn [index_name columns rows].
  rewrite decide_True by (repeat constructor; set_solver).
  cbn [mbind option_bind]. unfold set_index. cbn [index_name columns rows].
  rewrite decide_True.
  2:{ rewrite list_elem_of_filter. split; [set_solver|left]. }
  cbn [mbind option_bind]. do 2 f_equal. f_equal.
  - rewrite filter_app, (filter_cons _ "entryID"), decide_True by set_solver.
    rewrite (filter_cons _ "max_cycle"), decide_False by set_solver.
    rewrite filter_nil, app_nil_r, filter_cons, decide_False by set_solver.
    rewrite (filter_id _ cols); [|apply Forall_forall; intros c Hc; set_solver].
    apply filter_id, Forall_forall. intros c Hc. set_solver.
  - rewrite reset_group_keys.
    erewrite (list_fmap_ext _ _ (merge_sort _ _)).
    2:{ intros i k _. rewrite reset_group_cycles. reflexivity. }
    apply exclusion_rows.
    assert (Forall (λ e : cell * Row, e.2.*1 = cols) sorted) as Hsorted.
    { unfold sorted. rewrite merge_sort_Permutation.
      apply Forall_fmap. eapply Forall_impl; [exact Hwf|].
      intros e He. simpl. by rewrite row_drop_keys, He. }
    apply train_test_split_ordered_Some in Hsplit as (? & ? & _ & -> & _).
    apply Forall_take. eapply Forall_impl; [exact Hsorted|].
    intros e He. simpl in He. by rewrite He.
Qed.

Lemma time_dependent_split_Some_ok lookback test_size data train test :
  time_dependent_split lookback test_size data = Some (train, test) → time_ok data.
Proof.
  unfold time_dependent_split. intros H.
  apply bind_Some in H as (d & [Heid ->]%set_index_Some & H).
  apply bind_Some in H as ([tr te] & _ & H).
  apply bind_Some in H as (? & H & _). unfold exclude_lookback in H.
  apply bind_Some in H as (? & [_ ->]%reset_index_Some & H).
  apply bind_Some in H as (? & [Hcols _]%groupby_agg_Some & H).
  apply bind_Some in H as (? & [_ ->]%reset_index_Some & H).
  apply bind_Some in H as (? & [[_ Hmc] _]%join_on_Some & _).
  cbn in Hcols, Hmc.
  apply Forall_cons in Hcols as [Hmid Hcols].
  apply Forall_cons in Hcols as [Hcyc _].
  apply elem_of_cons in Hmid as [[=]|[_ Hmid]%list_elem_of_filter].
  apply elem_of_cons in Hcyc as [[=]|[_ Hcyc]%list_elem_of_filter].
  split; [by repeat constructor|].
  intros Hin. apply Hmc. right. apply list_elem_of_filter. split; [set_solver|done].
Qed.

Lemma time_dependent_split_Some lookback test_size data train test :
  wf data →
  time_dependent_split lookback test_size data = Some (train, test) →
  let sorted := merge_sort (λ a b, label_leb a.1 b.1)
                  (set_index_row "entryID" <$> rows data) in
  let cols := filter (λ k, k ∉ ["entryID"]) (columns data) in
  ∃ tr te,
    train_test_split_ordered test_size sorted = Some (tr, te)
    ∧ train = mkDF (Some "entryID") cols
                (filter (λ e, survives (min_cycles lookback te) e) tr)
    ∧ test = mkDF (Some "entryID") cols te.
Proof.
  intros Hwf H. pose proof (time_dependent_split_Some_ok _ _ _ _ _ H) as Hok.
  rewrite time_dependent_split_eq in H by done. cbv zeta in *.
  apply bind_Some in H as ([tr te] & Hsplit & [= <- <-]). by exists tr, te.
Qed.

Lemma min_cycles_lookup lookback te m :
  series_get m (min_cycles lookback te)
  = if decide (m ≠ NaN ∧ machine_rows m te ≠ [])
    then Some (cell_sub (agg_min (cycles (machine_rows m te))) (Num lookback))
    else None.
Proof. apply per_machine_lookup. Qed.

Lemma cell_ltb_Num c v : cell_ltb c (Num v) = true → ∃ z, c = Num z ∧ (z < v)%Z.
Proof. destruct c as [|z|s]; simpl; [done| |done]. intros ?%Z.ltb_lt. eauto. Qed.

Lemma machine_rows_filter_survives s m tr :
  series_get m s = None →
  machine_rows m (filter (λ e, survives s e) tr) = machine_rows m tr.
Proof.
  intros Hs. unfold machine_rows. rewrite list_filter_filter.
  apply filter_ext_Forall, Forall_forall. intros e _. split; [by intros [? _]|].
  intros He. split; [done|]. unfold survives. by rewrite He, Hs.
Qed.

(** C2: on a well-formed table with the columns [entryID], [machineID],
    [cycle] (and no [max_cycle]), whose number of records
    [train_test_split] accepts with [test_size] (a [test_size] strictly
    between 0 and 1 that leaves a record to the train part), the
    time-dependent split runs; for every machine with a least test cycle
    [mn], each train record of that machine has a cycle below
    [mn - lookback]; and all records of a machine without test records
    are in the train set. *)
Theorem time_split_excludes_lookback lookback test_size data :
  wf data → time_ok data →
  is_Some (validate_shuffle_split (length (rows data)) test_size) →
  ∃ train test,
    time_dependent_split lookback test_size data = Some (train, test)
    ∧ (∀ m mn e, m ≠ NaN → is_min_test_cycle test m mn →
         e ∈ machine_rows m (rows train) →
         ∃ c, row_get "cycle" e.2 = Num c ∧ (c < mn - lookback)%Z)
    ∧ (∀ m, machine_rows m (rows test) = [] →
         machine_rows m (rows train)
         ≡ₚ machine_rows m (set_index_row "entryID" <$> rows data)).
Proof.
  intros Hwf Hok Hsizes. rewrite time_dependent_split_eq by done. cbv zeta.
  set (sorted := merge_sort _ _).
  rewrite <- length_sorted_entries in Hsizes. fold sorted in Hsizes.
  apply (train_test_split_ordered_is_Some test_size sorted) in Hsizes
    as [[tr te] Hsplit].
  rewrite Hsplit. cbn [mbind option_bind].
  eexists _, _. split; [done|].
  unfold is_min_test_cycle. cbn [rows].
  pose proof (train_test_split_ordered_app _ _ _ _ Hsplit) as Happ.
  split.
  - intros m mn e Hm [Hmin Hle] He. unfold machine_rows in He.
    apply list_elem_of_filter in He as [Hem [Hsurv _]%list_elem_of_filter].
    unfold survives in Hsurv. rewrite Hem, min_cycles_lookup in Hsurv.
    rewrite decide_True in Hsurv.
    2:{ split; [done|]. intros Hnil. rewrite Hnil in Hmin.
        by apply elem_of_nil in Hmin. }
    rewrite (agg_min_is_min _ mn) in Hsurv by done. simpl in Hsurv.
    apply Is_true_true, cell_ltb_Num in Hsurv. done.
  - intros m Hm. rewrite machine_rows_filter_survives.
    2:{ rewrite min_cycles_lookup, decide_False; [done|]. by intros [_ ?]. }
    assert (machine_rows m tr = machine_rows m sorted) as ->.
    { rewrite <- Happ. unfold machine_rows in *. by rewrite filter_app, Hm, app_nil_r. }
    unfold machine_rows, sorted. by rewrite merge_sort_Permutation.
Qed.

(** The scenario of the specification: the test cycles of the machine
    start at 50 and the look-back is 5, so the train set keeps the cycles
    below 45. *)
Example machine_M_split :
  (λ '(train, test), (cycles (rows train), cycles (rows test)))
    <$> time_dependent_split 5 (1 # 10) machine_M
  = Some ([Num 41; Num 42; Num 43; Num 44], [Num 50]).
Proof. by vm_compute. Qed.

Lemma time_split_excludes_lookback_witness :
  ∃ train test,
    time_dependent_split 5 (1 # 10) machine_M = Some (train, test)
    ∧ (∀ m mn e, m ≠ NaN → is_min_test_cycle test m mn →
         e ∈ machine_rows m (rows train) →
         ∃ c, row_get "cycle" e.2 = Num c ∧ (c < mn - 5)%Z)
    ∧ (∀ m, machine_rows m (rows test) = [] →
         machine_rows m (rows train)
         ≡ₚ machine_rows m (set_index_row "entryID" <$> rows machine_M)).
Proof.
  apply (time_split_excludes_lookback 5 (1 # 10) machine_M).
  - by apply (bool_decide_unpack _).
  - unfold time_ok. by apply (bool_decide_unpack _).
  - eexists. by vm_compute.
Defined.

(** *** The order of the entries, the size of the test set, the look-back *)

Lemma String_leb_trans s t u :
  String.leb s t = true → String.leb t u = true → String.leb s u = true.
Proof.
  unfold String.leb. revert t u.
  induction s as [|a s IH]; intros [|b t] [|c u]; simpl; try done.
  unfold Ascii.compare.
  destruct (N.compare_spec (Ascii.N_of_ascii a) (Ascii.N_of_ascii b)) as [Hab|Hab|Hab];
    destruct (N.compare_spec (Ascii.N_of_ascii b) (Ascii.N_of_ascii c)) as [Hbc|Hbc|Hbc];
    destruct (N.compare_spec (Ascii.N_of_ascii a) (Ascii.N_of_ascii c)) as [Hac|Hac|Hac];
    try done; try lia.
  apply IH.
Qed.

Lemma label_leb_total : Total (λ a b : cell, label_leb a b).
Proof.
  intros [|x|s] [|y|t]; simpl; try tauto.
  - destruct (Z.leb_spec x y), (Z.leb_spec y x); simpl; try tauto. lia.
  - destruct (String.leb_total s t) as [->| ->]; simpl; tauto.
Qed.

Lemma label_leb_trans : Transitive (λ a b : cell, label_leb a b).
Proof.
  intros [|x|s] [|y|t] [|z|u]; simpl; try done.
  - intros ?%Is_true_true%Z.leb_le ?%Is_true_true%Z.leb_le.
    apply Is_true_true, Z.leb_le. lia.
  - intros ?%Is_true_true ?%Is_true_true. by eapply Is_true_true, String_leb_trans.
Qed.

(** Sorting by index label yields a list in which every row precedes the
    rows behind it. *)
Lemma sort_index_sorted (rs : list (cell * Row)) :
  StronglySorted (λ a b : cell * Row, label_leb a.1 b.1)
    (merge_sort (λ a b, label_leb a.1 b.1) rs).
Proof.
  apply @StronglySorted_merge_sort.
  - intros a b c. apply label_leb_trans.
  - intros a b. apply label_leb_total.
Qed.

Lemma train_test_split_ordered_sorted {A} (R : relation A) test_size
    (l tr te : list A) x y :
  StronglySorted R l →
  train_test_split_ordered test_size l = Some (tr, te) →
  x ∈ tr → y ∈ te → R x y.
Proof.
  intros Hl Happ%train_test_split_ordered_app Hx Hy.
  rewrite <- Happ in Hl. by eapply StronglySorted_app_1_elem_of.
Qed.

(** X4: the time-dependent split cuts the entries in the order of their
    [entryID]: no train record has a greater [entryID] than a test
    record. *)
Theorem time_split_train_precedes_test lookback test_size data train test :
  wf data →
  time_dependent_split lookback test_size data = Some (train, test) →
  ∀ i j, Num i ∈ (rows train).*1 → Num j ∈ (rows test).*1 → (i ≤ j)%Z.
Proof.
  intros Hwf H.
  destruct (time_dependent_split_Some _ _ _ _ _ Hwf H) as (tr & te & Hsplit & -> & ->).
  cbn [rows].
  intros i j (e & Hi & [_ He]%list_elem_of_filter)%list_elem_of_fmap
    (e' & Hj & He')%list_elem_of_fmap.
  assert (label_leb e.1 e'.1) as Hle.
  { eapply (train_test_split_ordered_sorted (λ a b : cell * Row, label_leb a.1 b.1));
      [|exact Hsplit|exact He|exact He'].
    apply sort_index_sorted. }
  rewrite <- Hi, <- Hj in Hle. by apply Is_true_true, Z.leb_le in Hle.
Qed.

Lemma time_split_train_precedes_test_witness :
  ∃ train test,
    time_dependent_split 5 (1 # 10) machine_M = Some (train, test)
    ∧ ∀ i j, Num i ∈ (rows train).*1 → Num j ∈ (rows test).*1 → (i ≤ j)%Z.
Proof.
  eexists _, _. split; [by vm_compute|].
  eapply (time_split_train_precedes_test 5 (1 # 10) machine_M).
  - by apply (bool_decide_unpack _).
  - by vm_compute.
Defined.

(** The product and the ceiling are those of floats: 28 hundredths of 25
    records are 7 records, and [train_test_split] takes 8, since the
    float product of [0.28] and [25] exceeds 7. *)
Example float_product_ceiling :
  float_of_Q (28 # 100) = S754_finite false 5044031582654956 (-54)
  ∧ SFmul prec emax (float_of_Q (28 # 100)) (float_of_int 25)
    = S754_finite false 7881299347898369 (-50)
  ∧ validate_shuffle_split 25 (28 # 100) = Some (17, 8)%nat.
Proof. by vm_compute. Qed.

(** A [test_size] outside of the open interval from 0 to 1, no sample, a
    single sample and a [test_size] that leaves no sample to the train
    part raise. *)
Example validate_shuffle_split_raises :
  validate_shuffle_split 6 3 = None
  ∧ validate_shuffle_split 6 1 = None
  ∧ validate_shuffle_split 6 0 = None
  ∧ validate_shuffle_split 6 (-1 # 2) = None
  ∧ validate_shuffle_split 0 (2 # 10) = None
  ∧ validate_shuffle_split 1 (2 # 10) = None
  ∧ validate_shuffle_split 3 (9 # 10) = None.
Proof. by vm_compute. Qed.

(** X5: when [train_test_split] accepts [test_size] for the [n] records
    of the table, with the sizes [n_train] and [n_test], the test set of
    the time-dependent split holds [n_test] records, the train set at
    most [n_train] records, [n_train] is positive, the two sizes add up
    to [n], and [n_test] is the ceiling of the float product
    [test_size * n]. *)
Theorem time_split_test_size lookback test_size data train test n_train n_test :
  wf data →
  validate_shuffle_split (length (rows data)) test_size = Some (n_train, n_test) →
  time_dependent_split lookback test_size data = Some (train, test) →
  length (rows test) = n_test
  ∧ (length (rows train) ≤ n_train)%nat
  ∧ (0 < n_train)%nat
  ∧ (n_train + n_test = length (rows data))%nat
  ∧ ceil (SFmul prec emax (float_of_Q test_size)
            (float_of_int (Z.of_nat (length (rows data)))))
    = Some (Z.of_nat n_test).
Proof.
  intros Hwf Hv H. pose proof (validate_shuffle_split_n_test _ _ _ _ Hv) as Hceil.
  destruct (time_dependent_split_Some _ _ _ _ _ Hwf H) as (tr & te & Hsplit & -> & ->).
  cbn [rows].
  apply train_test_split_ordered_Some in Hsplit as (a & b & Hv' & -> & ->).
  rewrite length_sorted_entries, Hv in Hv'. injection Hv' as <- <-.
  pose proof (length_sorted_entries data) as Hlen.
  apply validate_shuffle_split_Some in Hv as [Hpos Hsum].
  split; [rewrite length_drop; lia|]. split; [|done].
  etrans; [apply length_filter|]. rewrite length_take. lia.
Qed.

Lemma time_split_test_size_witness :
  ∃ train test,
    time_dependent_split 5 (2 # 10) fleet = Some (train, test)
    ∧ length (rows test) = 8%nat
    ∧ (length (rows train) ≤ 32)%nat.
Proof.
  eexists _, _. split; [by vm_compute|].
  edestruct (time_split_test_size 5 (2 # 10) fleet) as (Hte & Htr & _).
  - apply (bool_decide_unpack _). by vm_compute.
  - by vm_compute.
  - by vm_compute.
  - split; [exact Hte|exact Htr].
Defined.

Lemma cell_ltb_Num_mono c t1 t2 :
  (t1 ≤ t2)%Z → cell_ltb c (Num t1) → cell_ltb c (Num t2).
Proof.
  destruct c as [|z|s]; simpl; [done| |done].
  intros Ht H%Is_true_true%Z.ltb_lt. apply Is_true_true, Z.ltb_lt. lia.
Qed.

(** A longer look-back lowers the threshold of every machine. *)
Lemma survives_mono lb1 lb2 te e :
  (lb1 ≤ lb2)%Z →
  survives (min_cycles lb2 te) e → survives (min_cycles lb1 te) e.
Proof.
  intros Hlb. unfold survives. cbv zeta. rewrite !min_cycles_lookup.
  destruct (decide (_ ∧ _)) as [_|_]; [|done]. simpl.
  destruct (agg_min _) as [|mn|s]; simpl; [done| |done].
  apply cell_ltb_Num_mono. lia.
Qed.

(** X6: the look-back only takes records away from the train set.  With a
    longer look-back the test set is the same, and the train set is the
    train set of the shorter look-back with some records left out, the
    others in the same order. *)
Theorem time_split_lookback_monotone lb1 lb2 test_size data train1 test1 train2 test2 :
  wf data → (lb1 ≤ lb2)%Z →
  time_dependent_split lb1 test_size data = Some (train1, test1) →
  time_dependent_split lb2 test_size data = Some (train2, test2) →
  test2 = test1 ∧ rows train2 `sublist_of` rows train1.
Proof.
  intros Hwf Hlb H1 H2.
  destruct (time_dependent_split_Some _ _ _ _ _ Hwf H1) as (tr & te & Hsplit & -> & ->).
  destruct (time_dependent_split_Some _ _ _ _ _ Hwf H2) as (tr' & te' & Hsplit' & -> & ->).
  rewrite Hsplit in Hsplit'. injection Hsplit' as <- <-.
  split; [done|]. cbn [rows].
  apply filter_impl_sublist, Forall_forall. intros e _. by apply survives_mono.
Qed.

Lemma time_split_lookback_monotone_witness :
  ∃ train1 test1 train2 test2,
    time_dependent_split 0 (1 # 10) machine_M = Some (train1, test1)
    ∧ time_dependent_split 5 (1 # 10) machine_M = Some (train2, test2)
    ∧ test2 = test1 ∧ rows train2 `sublist_of` rows train1.
Proof.
  eexists _, _, _, _. split; [by vm_compute|]. split; [by vm_compute|].
  eapply (time_split_lookback_monotone 0 5 (1 # 10) machine_M).
  - by apply (bool_decide_unpack _).
  - lia.
  - by vm_compute.
  - by vm_compute.
Defined.

(** ** The asset ID-based split *)

Section shuffled.
Context {A : Type} (permutation : nat → list nat) (test_size : Q).
Context (l train_part test_part : list A).
Hypothesis permutation_ok : ∀ n, permutation n ≡ₚ seq 0 n.
Hypothesis split :
  train_test_split_shuffled permutation test_size l = Some (train_part, test_part).

Implicit Types x : A.

Lemma shuffled_parts :
  ∃ n_train n_test,
    validate_shuffle_split (length l) test_size = Some (n_train, n_test)
    ∧ train_part = omap (λ i, l !! i) (drop n_test (permutation (length l)))
    ∧ test_part = omap (λ i, l !! i) (take n_test (permutation (length l))).
Proof.
  unfold train_test_split_shuffled in split.
  apply bind_Some in split as ([n_train n_test] & Hv & [= <- <-]).
  exists n_train, n_test. split; [done|]. split; [|done].
  apply validate_shuffle_split_Some in Hv as [_ Hn].
  rewrite take_ge; [done|].
  rewrite length_drop, (permutation_ok (length l)), length_seq. lia.
Qed.

Lemma shuffled_included x : x ∈ train_part ∨ x ∈ test_part → x ∈ l.
Proof.
  destruct shuffled_parts as (n_train & n_test & _ & -> & ->).
  rewrite !list_elem_of_omap.
  intros [(i & _ & Hi)|(i & _ & Hi)]; apply list_elem_of_lookup; eauto.
Qed.

Lemma shuffled_covers x : x ∈ l → x ∈ train_part ∨ x ∈ test_part.
Proof.
  destruct shuffled_parts as (n_train & n_test & _ & -> & ->).
  intros [i Hi]%list_elem_of_lookup.
  set (n := length l).
  pose proof (permutation_ok n) as Hp.
  assert (i ∈ permutation n) as Hin.
  { rewrite Hp, elem_of_seq. apply lookup_lt_Some in Hi. unfold n. lia. }
  rewrite <- (take_drop n_test (permutation n)), elem_of_app in Hin.
  rewrite !list_elem_of_omap. destruct Hin as [Hin|Hin]; eauto.
Qed.

Lemma shuffled_disjoint x : NoDup l → x ∈ train_part → x ∉ test_part.
Proof.
  destruct shuffled_parts as (n_train & n_test & _ & -> & ->).
  intros Hnd. set (n := length l).
  rewrite !list_elem_of_omap. intros (i & Hi & Hix) (j & Hj & Hjx).
  assert (i = j) as -> by (by eapply NoDup_lookup).
  pose proof (permutation_ok n) as Hp.
  assert (NoDup (permutation n)) as Hpn by (rewrite Hp; apply NoDup_seq).
  rewrite <- (take_drop n_test (permutation n)), NoDup_app in Hpn.
  destruct Hpn as (_ & Hdisj & _). by apply (Hdisj j Hj).
Qed.
End shuffled.

Lemma reset_col c name (rs : list (cell * Row)) :
  name ≠ c →
  (λ e, row_get c e.2) <$> range_index ((λ e, (e.1, (name, e.1) :: e.2)) <$> rs)
  = (λ e, row_get c e.2) <$> rs.
Proof.
  intros Hne. rewrite !(fmap_fields (row_get c)), range_index_fields.
  rewrite <- !list_fmap_compose. apply list_fmap_ext. intros _ [l r] _. simpl.
  by rewrite decide_False.
Qed.

Lemma asset_split_eq permutation test_size data :
  asset_ok data →
  let cols := filter (λ k, k ∉ ["entryID"]) (columns data) in
  asset_split permutation test_size data
  = '(train_assets, test_assets) ←
      train_test_split_shuffled permutation test_size
        (unique (col "machineID" data));
    Some (mkDF (Some "entryID") cols
            (set_index_row "entryID"
               <$> filter (λ e, isin train_assets e.2) (rows data)),
          mkDF (Some "entryID") cols
            (set_index_row "entryID"
               <$> filter (λ e, isin test_assets e.2) (rows data))).
Proof.
  intros [Hcols Hname] cols.
  apply Forall_cons in Hcols as [Heid Hcols].
  apply Forall_cons in Hcols as [Hmid _].
  unfold asset_split, reset_index. rewrite decide_False by done.
  cbn [mbind option_bind columns rows].
  rewrite option_guard_True by (by right). cbn [mbind option_bind].
  unfold col at 1. cbn [rows].
  rewrite reset_col by (intros Heq; by rewrite Heq in Hname).
  fold (col "machineID" data).
  destruct (train_test_split_shuffled _ _ _) as [[train_assets test_assets]|];
    [|done].
  cbn [mbind option_bind].
  rewrite option_guard_True by done. cbn [mbind option_bind fst snd].
  unfold set_index, df_filter. cbn [columns rows index_name].
  by rewrite !decide_True by done.
Qed.

Lemma asset_split_Some_ok permutation test_size data train test :
  asset_split permutation test_size data = Some (train, test) → asset_ok data.
Proof.
  unfold asset_split. intros H.
  apply bind_Some in H as (d & [Hname ->]%reset_index_Some & H).
  apply bind_Some in H as (? & _ & H).
  apply bind_Some in H as ([train_assets test_assets] & _ & H).
  apply bind_Some in H as (Hmid & _ & H).
  apply bind_Some in H as (? & [Heid _]%set_index_Some & _).
  split; [by repeat constructor|done].
Qed.

Lemma asset_split_Some permutation test_size data train test :
  asset_split permutation test_size data = Some (train, test) →
  let cols := filter (λ k, k ∉ ["entryID"]) (columns data) in
  ∃ train_assets test_assets,
    train_test_split_shuffled permutation test_size
      (unique (col "machineID" data)) = Some (train_assets, test_assets)
    ∧ train = mkDF (Some "entryID") cols
                (set_index_row "entryID"
                   <$> filter (λ e, isin train_assets e.2) (rows data))
    ∧ test = mkDF (Some "entryID") cols
               (set_index_row "entryID"
                  <$> filter (λ e, isin test_assets e.2) (rows data)).
Proof.
  intros H. pose proof (asset_split_Some_ok _ _ _ _ _ H) as Hok.
  rewrite asset_split_eq in H by done. cbv zeta in *.
  apply bind_Some in H as ([train_assets test_assets] & Hsplit & [= <- <-]).
  by exists train_assets, test_assets.
Qed.

(** C6: on a table with the columns [entryID] and [machineID], whose
    number of distinct machines [train_test_split] accepts with
    [test_size] (a [test_size] strictly between 0 and 1 that leaves a
    machine to the train part), the asset ID-based split runs, and for
    every machine either all of its records are in the train set and none
    in the test set, or all in the test set and none in the train set. *)
Theorem asset_split_keeps_machines_whole permutation test_size data :
  (∀ n, permutation n ≡ₚ seq 0 n) → asset_ok data →
  is_Some (validate_shuffle_split
             (length (unique (col "machineID" data))) test_size) →
  ∃ train test,
    asset_split permutation test_size data = Some (train, test)
    ∧ ∀ m,
        (machine_rows m (rows train)
           = set_index_row "entryID" <$> machine_rows m (rows data)
         ∧ machine_rows m (rows test) = [])
        ∨ (machine_rows m (rows test)
             = set_index_row "entryID" <$> machine_rows m (rows data)
           ∧ machine_rows m (rows train) = []).
Proof.
  intros Hperm Hok Hsizes. rewrite asset_split_eq by done. cbv zeta.
  set (l := unique (col "machineID" data)) in *.
  apply (train_test_split_shuffled_is_Some permutation test_size l) in Hsizes
    as [[train_assets test_assets] Hsplit].
  rewrite Hsplit. cbn [mbind option_bind].
  eexists _, _. split; [done|].
  intros m. cbn [rows]. rewrite !machine_rows_set_index, !machine_rows_isin.
  destruct (decide (m ∈ l)) as [Hm|Hm].
  - apply (shuffled_covers _ _ _ _ _ Hperm Hsplit) in Hm as [Hm|Hm].
    + left. rewrite decide_True by done. split; [done|].
      rewrite decide_False; [done|].
      by eapply shuffled_disjoint; [| |apply NoDup_unique|].
    + right. rewrite decide_True by done. split; [done|].
      rewrite decide_False; [done|]. intros Hm'. revert Hm.
      by eapply shuffled_disjoint; [| |apply NoDup_unique|].
  - left. rewrite machine_rows_absent by (by rewrite <- elem_of_unique).
    rewrite !(decide_False (P := m ∈ _)); [done| |];
      intros Hm'; apply Hm, (shuffled_included _ _ _ _ _ Hperm Hsplit); eauto.
Qed.

Lemma asset_split_keeps_machines_whole_witness :
  ∃ train test,
    asset_split (seq 0) (1 # 2) two_machines = Some (train, test)
    ∧ ∀ m,
        (machine_rows m (rows train)
           = set_index_row "entryID" <$> machine_rows m (rows two_machines)
         ∧ machine_rows m (rows test) = [])
        ∨ (machine_rows m (rows test)
             = set_index_row "entryID" <$> machine_rows m (rows two_machines)
           ∧ machine_rows m (rows train) = []).
Proof.
  apply (asset_split_keeps_machines_whole (seq 0) (1 # 2) two_machines).
  - reflexivity.
  - unfold asset_ok. by apply (bool_decide_unpack _).
  - eexists. by vm_compute.
Defined.

(** *** The machines on either side *)

Section shuffled_sizes.
Context {A : Type} (permutation : nat → list nat) (test_size : Q).
Context (l train_part test_part : list A).
Hypothesis permutation_ok : ∀ n, permutation n ≡ₚ seq 0 n.
Hypothesis split :
  train_test_split_shuffled permutation test_size l = Some (train_part, test_part).

Lemma permutation_bounds idx :
  idx `sublist_of` permutation (length l) →
  NoDup idx ∧ Forall (λ i, (i < length l)%nat) idx.
Proof.
  intros Hsub%sublist_submseteq. pose proof (permutation_ok (length l)) as Hp.
  rewrite Hp in Hsub. split.
  - eapply submseteq_NoDup; [exact Hsub|apply NoDup_seq].
  - apply Forall_forall. intros i Hi.
    eapply elem_of_submseteq, elem_of_seq in Hi; [|exact Hsub]. lia.
Qed.

Lemma length_shuffled n_train n_test :
  validate_shuffle_split (length l) test_size = Some (n_train, n_test) →
  length train_part = n_train ∧ length test_part = n_test.
Proof.
  intros Hv.
  destruct (shuffled_parts _ _ _ _ _ permutation_ok split)
    as (a & b & Hv' & -> & ->).
  rewrite Hv in Hv'. injection Hv' as <- <-.
  apply validate_shuffle_split_Some in Hv as [_ Hn].
  pose proof (permutation_ok (length l)) as Hp.
  assert (length (permutation (length l)) = length l) as Hlen
    by (by rewrite Hp, length_seq).
  split.
  - rewrite length_omap_lookup.
    + rewrite length_drop. lia.
    + apply permutation_bounds, sublist_drop.
  - rewrite length_omap_lookup.
    + rewrite length_take. lia.
    + apply permutation_bounds, sublist_take.
Qed.

Lemma NoDup_shuffled : NoDup l → NoDup train_part ∧ NoDup test_part.
Proof.
  intros Hnd.
  destruct (shuffled_parts _ _ _ _ _ permutation_ok split)
    as (a & b & _ & -> & ->).
  split.
  - apply NoDup_omap_lookup; [done|]. apply permutation_bounds, sublist_drop.
  - apply NoDup_omap_lookup; [done|]. apply permutation_bounds, sublist_take.
Qed.
End shuffled_sizes.

(** The machines of the rows selected by [isin]. *)
Lemma unique_machines_isin assets data :
  NoDup assets → assets ⊆ col "machineID" data →
  unique ((λ e, row_get "machineID" e.2)
            <$> (set_index_row "entryID" <$> filter (λ e, isin assets e.2) (rows data)))
  ≡ₚ assets.
Proof.
  intros Hnd Hsub. apply NoDup_Permutation; [apply NoDup_unique|done|].
  intros m. rewrite elem_of_unique, <- list_fmap_compose, list_elem_of_fmap. split.
  - intros (e & -> & [He _]%list_elem_of_filter). simpl.
    rewrite row_get_row_drop by set_solver. by apply bool_decide_unpack in He.
  - intros Hm. pose proof (Hsub m Hm) as (e & -> & He)%list_elem_of_fmap.
    exists e. split.
    + simpl. by rewrite row_get_row_drop by set_solver.
    + apply list_elem_of_filter. split; [|done]. by apply bool_decide_pack.
Qed.

(** X7: the asset ID-based split applies the test size to the machines,
    not to the records, and loses no record.  When [train_test_split]
    accepts [test_size] for the [k] distinct machines of the table, with
    the sizes [n_train] and [n_test], [n_test] machines are in the test
    set and [n_train] machines in the train set; [n_train] is positive,
    the two sizes add up to [k], and [n_test] is the ceiling of the float
    product [test_size * k]; train and test together hold every record
    of the table exactly once. *)
Theorem asset_split_sizes permutation test_size data train test n_train n_test :
  (∀ n, permutation n ≡ₚ seq 0 n) →
  validate_shuffle_split (length (unique (col "machineID" data))) test_size
  = Some (n_train, n_test) →
  asset_split permutation test_size data = Some (train, test) →
  length (unique (col "machineID" test)) = n_test
  ∧ length (unique (col "machineID" train)) = n_train
  ∧ (0 < n_train)%nat
  ∧ (n_train + n_test = length (unique (col "machineID" data)))%nat
  ∧ ceil (SFmul prec emax (float_of_Q test_size)
            (float_of_int (Z.of_nat (length (unique (col "machineID" data))))))
    = Some (Z.of_nat n_test)
  ∧ rows train ++ rows test ≡ₚ set_index_row "entryID" <$> rows data.
Proof.
  intros Hperm Hv H. pose proof (validate_shuffle_split_n_test _ _ _ _ Hv) as Hceil.
  destruct (asset_split_Some _ _ _ _ _ H)
    as (train_assets & test_assets & Hsplit & -> & ->).
  set (l := unique (col "machineID" data)) in *.
  destruct (length_shuffled _ _ _ _ _ Hperm Hsplit _ _ Hv) as [Htr Hte].
  destruct (NoDup_shuffled _ _ _ _ _ Hperm Hsplit (NoDup_unique _))
    as [Hndtr Hndte].
  assert (∀ m, m ∈ train_assets ∨ m ∈ test_assets → m ∈ col "machineID" data)
    as Hincl.
  { intros m Hm. apply elem_of_unique. by eapply shuffled_included. }
  apply validate_shuffle_split_Some in Hv as [Hpos Hsum].
  unfold col at 1 2. cbn [rows].
  split; [|split; [|split; [done|split; [done|split; [done|]]]]].
  - rewrite unique_machines_isin; [done..|]. intros m Hm. apply Hincl. by right.
  - rewrite unique_machines_isin; [done..|]. intros m Hm. apply Hincl. by left.
  - rewrite <- fmap_app. apply fmap_Permutation, filter_cover_Permutation.
    apply Forall_forall. intros e He.
    assert (row_get "machineID" e.2 ∈ l) as Hm.
    { apply elem_of_unique, list_elem_of_fmap. eauto. }
    unfold isin. split.
    + apply (shuffled_covers _ _ _ _ _ Hperm Hsplit) in Hm as [Hm|Hm];
        [left|right]; by apply bool_decide_pack.
    + intros [Ha%bool_decide_unpack Hb%bool_decide_unpack]. revert Hb.
      by eapply shuffled_disjoint; [| |apply NoDup_unique|].
Qed.

Lemma asset_split_sizes_witness :
  ∃ train test,
    asset_split (seq 0) (1 # 2) two_machines = Some (train, test)
    ∧ length (unique (col "machineID" test)) = 1%nat
    ∧ length (unique (col "machineID" train)) = 1%nat
    ∧ rows train ++ rows test ≡ₚ set_index_row "entryID" <$> rows two_machines.
Proof.
  eexists _, _. split; [by vm_compute|].
  edestruct (asset_split_sizes (seq 0) (1 # 2) two_machines)
    as (Hte & Htr & _ & _ & _ & Hcov).
  - reflexivity.
  - by vm_compute.
  - by vm_compute.
  - split; [exact Hte|]. split; [exact Htr|exact Hcov].
Defined.

(** ** The partition *)

Lemma partition_is_Some time_split permutation lookback test_size data :
  wf data → split_ok time_split data →
  is_Some (validate_shuffle_split (n_samples time_split data) test_size) →
  is_Some (partition time_split permutation lookback test_size data).
Proof.
  intros Hwf Hok Hsizes. destruct time_split; simpl in *.
  - rewrite time_dependent_split_eq by done. cbv zeta.
    rewrite <- length_sorted_entries in Hsizes.
    apply (train_test_split_ordered_is_Some test_size) in Hsizes
      as [[tr te] Hsplit].
    by rewrite Hsplit.
  - rewrite asset_split_eq by done. cbv zeta.
    apply (train_test_split_shuffled_is_Some permutation test_size) in Hsizes
      as [[train_assets test_assets] Hsplit].
    by rewrite Hsplit.
Qed.

Lemma partition_Some time_split permutation lookback test_size data train test :
  (∀ n, permutation n ≡ₚ seq 0 n) → wf data →
  partition time_split permutation lookback test_size data = Some (train, test) →
  index_name train = Some "entryID" ∧ index_name test = Some "entryID"
  ∧ columns train = filter (λ k, k ∉ ["entryID"]) (columns data)
  ∧ columns test = filter (λ k, k ∉ ["entryID"]) (columns data)
  ∧ rows train ++ rows test ⊆+ set_index_row "entryID" <$> rows data.
Proof.
  intros Hperm Hwf H. destruct time_split; simpl in *.
  - destruct (time_dependent_split_Some _ _ _ _ _ Hwf H)
      as (tr & te & Hsplit & -> & ->).
    repeat (split; [done|]). cbn [rows].
    set (sorted := merge_sort _ _) in *.
    pose proof (train_test_split_ordered_app _ _ _ _ Hsplit) as Happ.
    trans sorted; [|unfold sorted; by rewrite merge_sort_Permutation].
    rewrite <- Happ. apply submseteq_skips_r, sublist_submseteq, sublist_filter.
  - destruct (asset_split_Some _ _ _ _ _ H)
      as (train_assets & test_assets & Hsplit & -> & ->).
    repeat (split; [done|]). cbn [rows]. rewrite <- fmap_app.
    apply fmap_submseteq, filter_exclusive_submseteq.
    intros e He1%bool_decide_unpack He2%bool_decide_unpack. revert He2.
    by eapply shuffled_disjoint; [| |apply NoDup_unique|].
Qed.


Lemma partition_Some_ok time_split permutation lookback test_size data train test :
  partition time_split permutation lookback test_size data = Some (train, test) →
  split_ok time_split data.
Proof.
  destruct time_split; simpl.
  - apply time_dependent_split_Some_ok.
  - apply asset_split_Some_ok.
Qed.

Lemma partition_indexed time_split permutation lookback test_size data train test :
  partition time_split permutation lookback test_size data = Some (train, test) →
  ∀ part, part ∈ [train; test] →
    index_name part = Some "entryID" ∧ ("entryID" ∉ columns part)
    ∧ Forall (λ e, "entryID" ∉ e.2.*1) (rows part).
Proof.
  intros Hsplit. destruct time_split; simpl in Hsplit.
  - unfold time_dependent_split in Hsplit.
    apply bind_Some in Hsplit as (d & Hd & Hsplit).
    apply bind_Some in Hsplit as ([tr te] & Htts & Hsplit).
    apply bind_Some in Hsplit as (train' & Htrain & [= -> <-]).
    intros part [->|[->|[]%elem_of_nil]%elem_of_cons]%elem_of_cons.
    + unfold exclude_lookback in Htrain.
      apply bind_Some in Htrain as (? & _ & Htrain).
      apply bind_Some in Htrain as (? & _ & Htrain).
      apply bind_Some in Htrain as (? & _ & Htrain).
      apply bind_Some in Htrain as (? & _ & Htrain).
      apply bind_Some in Htrain as (? & _ & Htrain).
      by apply set_index_indexed in Htrain.
    + apply set_index_indexed in Hd as (Hname & Hcol & Hrows).
      cbn [index_name columns rows sort_index]. split; [done|]. split; [done|].
      apply train_test_split_ordered_Some in Htts as (? & ? & _ & _ & ->).
      apply Forall_drop. cbn [rows sort_index].
      by rewrite merge_sort_Permutation.
  - unfold asset_split in Hsplit.
    apply bind_Some in Hsplit as (d & _ & Hsplit).
    apply bind_Some in Hsplit as (? & _ & Hsplit).
    apply bind_Some in Hsplit as ([train_assets test_assets] & _ & Hsplit).
    apply bind_Some in Hsplit as (? & _ & Hsplit).
    apply bind_Some in Hsplit as (train' & Htrain & Hsplit).
    apply bind_Some in Hsplit as (test' & Htest & [= -> ->]).
    intros part [->|[->|[]%elem_of_nil]%elem_of_cons]%elem_of_cons;
      by eapply set_index_indexed.
Qed.

(** C3: under either strategy the partitioner runs on every well-formed
    table with the columns its strategy needs, whose number of samples
    (records for the time-dependent split, distinct machines for the
    asset ID-based split) [train_test_split] accepts with [test_size] (a
    [test_size] strictly between 0 and 1 that leaves a sample to the
    train part); the records of train and test together are records of
    the input, none of them twice; and when the [entryID] values of the
    input are distinct, no [entryID] occurs both in train and in test. *)
Theorem partition_disjoint time_split permutation lookback test_size data :
  (∀ n, permutation n ≡ₚ seq 0 n) → wf data → split_ok time_split data →
  is_Some (validate_shuffle_split (n_samples time_split data) test_size) →
  NoDup (col "entryID" data) →
  ∃ train test,
    partition time_split permutation lookback test_size data = Some (train, test)
    ∧ rows train ++ rows test ⊆+ set_index_row "entryID" <$> rows data
    ∧ NoDup ((rows train).*1 ++ (rows test).*1)
    ∧ ∀ i, i ∈ (rows train).*1 → i ∉ (rows test).*1.
Proof.
  intros Hperm Hwf Hok Hsizes Hnd.
  destruct (partition_is_Some time_split permutation lookback test_size data)
    as [[train test] Hsplit]; [done..|].
  destruct (partition_Some _ _ _ _ _ _ _ Hperm Hwf Hsplit)
    as (_ & _ & _ & _ & Hsub).
  exists train, test. split; [done|]. split; [done|].
  assert (NoDup ((rows train).*1 ++ (rows test).*1)) as Hnd'.
  { rewrite <- fmap_app. eapply submseteq_NoDup.
    - apply fmap_submseteq, Hsub.
    - by rewrite set_index_labels. }
  split; [done|]. by apply NoDup_app in Hnd' as (_ & ? & _).
Qed.

Lemma partition_disjoint_witness :
  ∃ train test,
    partition false (seq 0) 5 (1 # 2) two_machines = Some (train, test)
    ∧ rows train ++ rows test ⊆+ set_index_row "entryID" <$> rows two_machines
    ∧ NoDup ((rows train).*1 ++ (rows test).*1)
    ∧ ∀ i, i ∈ (rows train).*1 → i ∉ (rows test).*1.
Proof.
  apply (partition_disjoint false (seq 0) 5 (1 # 2) two_machines).
  - reflexivity.
  - by apply (bool_decide_unpack _).
  - unfold split_ok, asset_ok. by apply (bool_decide_unpack _).
  - eexists. by vm_compute.
  - by apply (bool_decide_unpack _).
Defined.

(** C10: both split strategies leave the train and the test set indexed
    by [entryID]; the features the label assignor returns for either of
    them carry positions as index labels and hold no [entryID], neither as
    a column of the table nor as a field of any row. *)
Theorem entryID_not_a_feature time_split permutation lookback test_size data
    train test :
  partition time_split permutation lookback test_size data = Some (train, test) →
  ∀ part w X Y, part ∈ [train; test] → xy part w = Some (X, Y) →
    index_name part = Some "entryID"
    ∧ index_name X = None
    ∧ (rows X).*1 = (λ i, Num (Z.of_nat i)) <$> seq 0 (length (rows part))
    ∧ ("entryID" ∉ columns X)
    ∧ Forall (λ e, "entryID" ∉ e.2.*1) (rows X).
Proof.
  intros Hsplit part w X Y Hpart (_ & -> & _)%xy_Some.
  destruct (partition_indexed _ _ _ _ _ _ _ Hsplit part Hpart)
    as (Hname & Hcol & Hrows).
  cbn [index_name columns rows]. split; [done|]. split; [done|]. split; [|split].
  - rewrite <- list_fmap_compose.
    rewrite (list_fmap_ext _ fst (range_index (rows part))) by done.
    apply range_index_labels.
  - rewrite list_elem_of_filter. by intros [_ ?].
  - apply Forall_fmap, Forall_forall. intros e He. simpl.
    rewrite row_drop_keys, list_elem_of_filter. intros [_ Hin].
    assert (e.2 ∈ (range_index (rows part)).*2) as He2
      by (apply list_elem_of_fmap; eauto).
    rewrite range_index_fields in He2.
    apply list_elem_of_fmap in He2 as (e' & He' & Hin').
    rewrite Forall_forall in Hrows. apply (Hrows e' Hin'). by rewrite <- He'.
Qed.

Lemma entryID_not_a_feature_witness :
  "entryID" ∉ columns (mkDF None ["s1"]
                         [(Num 0, [("s1", Num 1000)]); (Num 1, [("s1", Num 1000)]);
                          (Num 2, [("s1", Num 1000)]); (Num 3, [("s1", Num 1000)])]).
Proof.
  refine (proj1 (proj2 (proj2 (proj2 (entryID_not_a_feature true (seq 0) 5 (1 # 10)
            machine_M _ _ _ _ 7 _ _ _ _))))).
  - by vm_compute.
  - left.
  - by vm_compute.
Defined.

(** X8: the partitioner raises on a table that lacks a column its strategy
    reads.  The time-dependent split needs [entryID], [machineID] and
    [cycle] and no column [max_cycle]; the asset ID-based split needs
    [entryID] and [machineID], and the name under which the index is
    reset must not be a column already. *)
Theorem partition_raises time_split permutation lookback test_size data :
  ¬ split_ok time_split data →
  partition time_split permutation lookback test_size data = None.
Proof.
  intros Hok.
  destruct (partition time_split permutation lookback test_size data)
    as [[train test]|] eqn:H; [|done].
  destruct Hok. by eapply partition_Some_ok.
Qed.

Lemma partition_raises_witness : partition true (seq 0) 5 (2 # 10) source_a = None.
Proof.
  apply partition_raises. unfold split_ok, time_ok.
  by apply (bool_decide_unpack _).
Defined.

(** ** Elimination of possible false negatives *)

Lemma prefilter_eq w df :
  wf df → prefilter_ok df →
  prefilter w df
  = Some (mkDF (index_name df) (columns df)
            (filter (λ e, retained (max_cycle_series w (rows df)) e) (rows df))).
Proof.
  intros Hwf [Hcols Hmc]. unfold wf in Hwf.
  apply Forall_cons in Hcols as [Hrul Hcols].
  apply Forall_cons in Hcols as [Hmid Hcols].
  apply Forall_cons in Hcols as [Hcyc _].
  unfold prefilter. rewrite option_guard_True by done. cbn [mbind option_bind].
  unfold groupby_agg, df_filter. cbn [columns rows index_name].
  rewrite decide_True by (by repeat constructor). cbn [mbind option_bind].
  unfold join_on. rewrite decide_True by done. cbn [mbind option_bind].
  unfold df_drop. cbn [columns rows index_name].
  rewrite decide_True by (repeat constructor; set_solver). do 2 f_equal.
  - rewrite filter_app, filter_cons, decide_False by set_solver.
    rewrite filter_nil, app_nil_r. apply filter_id, Forall_forall.
    intros c Hc. set_solver.
  - change ((λ k : cell, (k, tail_cut w ((λ e : cell * Row, row_get "cycle" e.2) <$>
               group "machineID" k _))) <$> group_keys "machineID" _)
      with (max_cycle_series w (rows df)).
    set (s := max_cycle_series w (rows df)).
    rewrite filter_fmap, <- list_fmap_compose.
    rewrite <- (list_fmap_id (filter (λ e, retained s e) (rows df))).
    rewrite (filter_ext_Forall _ (λ e, retained s e)).
    + apply Forall_fmap_ext, Forall_forall.
      intros [l r] [_ Hin]%list_elem_of_filter. simpl. f_equal.
      rewrite row_drop_app, (row_drop_cons_drop ["max_cycle"]) by set_solver.
      rewrite Forall_forall in Hwf. specialize (Hwf _ Hin). simpl in Hwf.
      rewrite row_drop_absent; [apply app_nil_r|].
      repeat constructor. by rewrite Hwf.
    + eapply Forall_impl; [exact Hwf|]. intros [l r] Hr. simpl in *.
      unfold keep_le, retained. simpl.
      rewrite row_get_app_absent by (by rewrite Hr).
      by rewrite row_get_app_ne by done.
Qed.

Lemma prefilter_Some_ok w df data : prefilter w df = Some data → prefilter_ok df.
Proof.
  unfold prefilter. intros H.
  apply bind_Some in H as (Hrul & _ & H).
  apply bind_Some in H as (s & [Hcols _]%groupby_agg_Some & H).
  apply bind_Some in H as (j & [[_ Hmc] _]%join_on_Some & _).
  split; [|done]. apply Forall_cons. split; [done|]. apply Hcols.
Qed.







(** The pre-filter on the two machines with horizon 2: the failing machine
    keeps its three cycles, the running one loses its last two. *)
Example two_machines_prefilter :
  (λ data, (cycles (machine_rows (Num 1) (rows data)),
            cycles (machine_rows (Num 2) (rows data))))
    <$> prefilter 2 two_machines
  = Some ([Num 1; Num 2; Num 3], [Num 1]).
Proof. by vm_compute. Qed.

(** *** What the pre-filter keeps *)

Lemma cell_leb_Num_mono c t1 t2 :
  (t1 ≤ t2)%Z → cell_leb c (Num t1) → cell_leb c (Num t2).
Proof.
  destruct c as [|z|s]; simpl; [done| |done].
  intros Ht H%Is_true_true%Z.leb_le. apply Is_true_true, Z.leb_le. lia.
Qed.

(** A longer tail to cut lowers the [max_cycle] of every machine. *)
Lemma retained_mono w1 w2 rs e :
  (w1 ≤ w2)%Z →
  retained (max_cycle_series w2 rs) e → retained (max_cycle_series w1 rs) e.
Proof.
  intros Hw. unfold retained, max_cycle_series. cbv zeta.
  rewrite !per_machine_lookup.
  destruct (decide (_ ∧ _)) as [_|_]; [|done]. simpl.
  unfold tail_cut. destruct (agg_max _) as [|mx|s]; simpl; [done| |done].
  apply cell_leb_Num_mono. lia.
Qed.

(** X9: the pre-filter only removes records.  The records it returns are
    records of its input with their index labels, unchanged and in the
    same order, under the same columns and the same index. *)
Theorem prefilter_only_removes w combined_df data :
  wf combined_df → prefilter w combined_df = Some data →
  index_name data = index_name combined_df
  ∧ columns data = columns combined_df
  ∧ rows data `sublist_of` rows combined_df.
Proof.
  intros Hwf H. pose proof (prefilter_Some_ok _ _ _ H) as Hok.
  rewrite prefilter_eq in H by done. injection H as <-. cbn.
  split; [done|]. split; [done|]. apply sublist_filter.
Qed.

Lemma prefilter_only_removes_witness :
  ∃ data, prefilter 2 two_machines = Some data
          ∧ rows data `sublist_of` rows two_machines.
Proof.
  eexists. split; [reflexivity|].
  eapply (prefilter_only_removes 2 two_machines).
  - by apply (bool_decide_unpack _).
  - reflexivity.
Defined.

(** X10: a longer horizon removes more.  The records the pre-filter keeps
    under the horizon [w2] are among those it keeps under a horizon
    [w1 ≤ w2], in the same order. *)
Theorem prefilter_monotone w1 w2 combined_df data1 data2 :
  wf combined_df → (w1 ≤ w2)%Z →
  prefilter w1 combined_df = Some data1 →
  prefilter w2 combined_df = Some data2 →
  rows data2 `sublist_of` rows data1.
Proof.
  intros Hwf Hw H1 H2. pose proof (prefilter_Some_ok _ _ _ H1) as Hok.
  rewrite prefilter_eq in H1, H2 by done.
  injection H1 as <-. injection H2 as <-. cbn [rows].
  apply filter_impl_sublist, Forall_forall. intros e _. by apply retained_mono.
Qed.

Lemma prefilter_monotone_witness :
  ∃ data1 data2,
    prefilter 1 two_machines = Some data1
    ∧ prefilter 2 two_machines = Some data2
    ∧ rows data2 `sublist_of` rows data1.
Proof.
  eexists _, _. split; [reflexivity|]. split; [reflexivity|].
  eapply (prefilter_monotone 1 2 two_machines).
  - by apply (bool_decide_unpack _).
  - lia.
  - reflexivity.
  - reflexivity.
Defined.

(** X11: the pre-filter raises on a table without one of the columns
    [rul], [machineID], [cycle], and on a table that already has a column
    [max_cycle], the name of the column it joins. *)
Theorem prefilter_raises w combined_df :
  ¬ prefilter_ok combined_df → prefilter w combined_df = None.
Proof.
  intros Hok. destruct (prefilter w combined_df) as [data|] eqn:H; [|done].
  destruct Hok. by eapply prefilter_Some_ok.
Qed.

Lemma prefilter_raises_witness : prefilter 7 source_a = None.
Proof.
  apply prefilter_raises. unfold prefilter_ok. by apply (bool_decide_unpack _).
Defined.

(** ** From the feature files to the split *)




(** The split of the two feature tables returns.  The split raises for a
    test size of 1, for a single machine under the asset ID-based
    strategy, for a single record, and when the pre-filter leaves no
    record. *)
Example split_data_on_sizes :
  is_Some (split_data time_config [fleet; two_machines])
  ∧ split_data (mkConfig 7 5 1 true (seq 0)) [fleet; two_machines] = None
  ∧ split_data (mkConfig 7 5 (2 # 10) false (seq 0)) [machine_M] = None
  ∧ split_data (mkConfig 7 5 (2 # 10) true (seq 0))
      [table_of [record 1 1 1 (Num 0) "F1"]] = None
  ∧ split_data (mkConfig 7 5 (2 # 10) true (seq 0))
      [table_of [record 1 1 1 NaN ""]] = None.
Proof. split; [eexists; by vm_compute|by vm_compute]. Qed.

(** ** Class balancing *)

Lemma elem_of_classes c y : c ∈ classes y ↔ c ∈ y.
Proof. unfold classes. by rewrite merge_sort_Permutation, elem_of_unique. Qed.

Lemma NoDup_classes y : NoDup (classes y).
Proof. unfold classes. rewrite merge_sort_Permutation. apply NoDup_unique. Qed.

Lemma count_of_app c y1 y2 : count_of c (y1 ++ y2) = (count_of c y1 + count_of c y2)%nat.
Proof. unfold count_of. by rewrite filter_app, length_app. Qed.

Lemma count_of_replicate c c' n :
  count_of c (replicate n c') = if decide (c' = c) then n else 0%nat.
Proof.
  unfold count_of. induction n as [|n IH]; simpl.
  - by destruct (decide (c' = c)).
  - rewrite filter_cons. destruct (decide (c' = c)); simpl; by rewrite IH.
Qed.

Lemma count_of_pos c y : c ∈ y ↔ (0 < count_of c y)%nat.
Proof.
  unfold count_of. induction y as [|x y IH]; simpl.
  - split; [by intros ?%elem_of_nil|lia].
  - rewrite filter_cons, elem_of_cons.
    destruct (decide (x = c)) as [->|Hne]; simpl.
    + split; [lia|by left].
    + rewrite <- IH. naive_solver.
Qed.

Lemma count_of_le_majority c y : (count_of c y ≤ majority_count y)%nat.
Proof.
  destruct (decide (c ∈ y)) as [Hc|Hc].
  - apply max_list_elem_of_le, list_elem_of_fmap.
    exists c. by rewrite elem_of_classes.
  - rewrite count_of_pos in Hc. lia.
Qed.

(** The synthetic samples of the classes [cs] contain class [c] as often as
    it lacks, once if it is among them. *)
Lemma count_of_synthetic (g : cell → nat) c cs :
  NoDup cs →
  count_of c (mjoin ((λ c', replicate (g c') c') <$> cs))
  = if decide (c ∈ cs) then g c else 0%nat.
Proof.
  induction 1 as [|c' cs Hc' _ IH]; csimpl; [done|].
  rewrite count_of_app, count_of_replicate, IH.
  destruct (decide (c' = c)) as [->|Hne].
  - rewrite decide_False by done. rewrite decide_True by left. lia.
  - destruct (decide (c ∈ cs)) as [Hin|Hin].
    + rewrite decide_True by (by right). done.
    + rewrite decide_False; [done|]. rewrite elem_of_cons. naive_solver.
Qed.

(** C5: on training labels with at least two classes whose minority
    classes all have the samples the technique requires, the balancer
    returns, and whenever it returns every class of the balanced labels
    occurs exactly as often as the majority class did before balancing. *)
Theorem smote_equalises_classes y :
  ((2 ≤ length (classes y))%nat →
   Forall (λ c, count_of c y = majority_count y
                ∨ (neighbors_required ≤ count_of c y)%nat) (classes y) →
   is_Some (smote_labels y))
  ∧ ∀ y_res c, smote_labels y = Some y_res → c ∈ y_res →
      count_of c y_res = majority_count y.
Proof.
  unfold smote_labels. split.
  - intros H2 Hk. rewrite option_guard_True by done.
    rewrite option_guard_True by done. simpl. eauto.
  - intros y_res c H Hc.
    repeat case_guard; simplify_eq/=.
    assert (c ∈ y) as Hy.
    { apply elem_of_app in Hc as [?|Hc]; [done|].
      apply list_elem_of_join in Hc as (l & Hcl & Hl).
      apply list_elem_of_fmap in Hl as (c' & -> & Hc').
      apply elem_of_replicate in Hcl as [-> _]. by apply elem_of_classes. }
    rewrite count_of_app, count_of_synthetic by apply NoDup_classes.
    rewrite decide_True by (by apply elem_of_classes).
    pose proof (count_of_le_majority c y). lia.
Qed.

Lemma smote_equalises_classes_witness :
  count_of (Str "F1") (replicate 8 (Str "") ++ replicate 6 (Str "F1") ++ replicate 2 (Str "F1")) = 8%nat.
Proof.
  refine (proj2 (smote_equalises_classes (replicate 8 (Str "") ++ replicate 6 (Str "F1")))
            _ (Str "F1") _ _).
  - reflexivity.
  - vm_compute. set_solver.
Defined.

(** ** Persisting an input sample *)

Section sample.
Context (choice : nat → nat → list nat).
Hypothesis choice_ok : ∀ len n, (n ≤ len)%nat →
  length (choice len n) = n ∧ NoDup (choice len n)
  ∧ Forall (λ i, (i < len)%nat) (choice len n).


End sample.


(** ** The loaded table in the store *)

Section frame.
Context (l : nat) (o : object).

Lemma preserves_ret {A} (a : A) : preserves l o (mret a).
Proof. by intros σ a' σ' [= _ <-]. Qed.

Lemma preserves_bind {A B} (m : M A) (k : A → M B) :
  preserves l o m → (∀ a, preserves l o (k a)) → preserves l o (m ≫= k).
Proof.
  intros Hm Hk σ b σ' H Hσ. unfold mbind, M_bind in H.
  destruct (m σ) as [[a σ1]|] eqn:E; [|done]. eapply Hk; eauto.
Qed.

Lemma preserves_lift {A} (x : option A) : preserves l o (lift x).
Proof.
  intros σ a σ' H Hσ. unfold lift in H. by destruct x; simplify_eq/=.
Qed.

Lemma preserves_deref x : preserves l o (deref x).
Proof.
  intros σ a σ' H Hσ. unfold deref in H.
  destruct (names σ !! x) as [l'|]; [|done]. simpl in H.
  destruct (heap σ !! l'); by simplify_eq/=.
Qed.

Lemma preserves_table x : preserves l o (table x).
Proof.
  apply preserves_bind; [apply preserves_deref|]. intros. apply preserves_lift.
Qed.

Lemma preserves_values x : preserves l o (values x).
Proof.
  apply preserves_bind; [apply preserves_deref|]. intros. apply preserves_lift.
Qed.

(** An assignment to another name allocates a new object. *)
Lemma preserves_assign x o' : x ≠ "combined_df" → preserves l o (assign x o').
Proof.
  intros Hx σ [] σ' [= <-] (Hname & Hobj & Halias). repeat split; simpl.
  - by rewrite lookup_insert_ne.
  - by rewrite lookup_app_l by (by eapply lookup_lt_Some).
  - intros y Hy. destruct (decide (x = y)) as [<-|Hne].
    + rewrite lookup_insert_eq. intros [= Hl].
      apply lookup_lt_Some in Hobj. lia.
    + rewrite lookup_insert_ne by done. by apply Halias.
Qed.

(** A change in place through another name changes another object. *)
Lemma preserves_inplace x g : x ≠ "combined_df" → preserves l o (inplace x g).
Proof.
  intros Hx σ [] σ' H (Hname & Hobj & Halias). unfold inplace in H.
  destruct (names σ !! x) as [l'|] eqn:Hl'; [|done]. simpl in H.
  destruct (heap σ !! l') as [[df| |]|]; try done. simpl in H.
  destruct (g df) as [df'|]; [|done]. simpl in H. injection H as <-.
  repeat split; simpl; [done| |done].
  rewrite list_lookup_insert_ne; [done|]. intros ->.
  by apply (Halias x).
Qed.
End frame.

(** Every statement of the notebook is an assignment to, or a change in
    place through, a name other than [combined_df]. *)
Ltac frame_step :=
  match goal with
  | |- preserves _ _ (mbind _ _) => apply preserves_bind; [|intros ?]
  | |- preserves _ _ (table _) => apply preserves_table
  | |- preserves _ _ (values _) => apply preserves_values
  | |- preserves _ _ (lift _) => apply preserves_lift
  | |- preserves _ _ (assign _ _) => apply preserves_assign; done
  | |- preserves _ _ (inplace _ _) => apply preserves_inplace; done
  | |- preserves _ _ (match ?x with _ => _ end) => destruct x
  end.

Lemma preserves_cell5 l o cfg : preserves l o (cell5 cfg).
Proof. unfold cell5. repeat frame_step. Qed.

Lemma preserves_cell7 l o cfg : preserves l o (cell7 cfg).
Proof. unfold cell7, cell7_time, cell7_asset. repeat frame_step. Qed.

Lemma preserves_cell9 l o cfg : preserves l o (cell9 cfg).
Proof. unfold cell9. repeat frame_step. Qed.

Lemma preserves_cell13 l o : preserves l o cell13.
Proof. unfold cell13. repeat frame_step. Qed.

Lemma preserves_run l o (ms : list (M unit)) σ σ' :
  Forall (preserves l o) ms → run ms σ = Some σ' →
  untouched l o σ → untouched l o σ'.
Proof.
  unfold run. intros Hms. revert σ. induction Hms as [|m ms Hm _ IH]; intros σ.
  - by intros [= <-].
  - simpl. destruct (m σ) as [[[] σ1]|] eqn:E; simpl.
    + intros Hrun Hσ. eapply IH; [exact Hrun|]. eapply Hm; eauto.
    + intros Hrun. exfalso. clear -Hrun.
      induction ms as [|m' ms IH]; [done|]. by apply IH.
Qed.

Lemma cell3_untouched dfs σ0 :
  cell3 dfs empty_store = Some ((), σ0) →
  ∃ df, load dfs = Some df ∧ untouched 0 (Table df) σ0.
Proof.
  unfold cell3, load, mbind, M_bind, lift.
  destruct (pd_concat dfs) as [df|]; [|done]. simpl. intros [= <-].
  exists df. split; [done|]. repeat split; simpl.
  intros x Hx. by rewrite lookup_insert_ne.
Qed.

(** C9: once the unified table is loaded, after every stage of the
    notebook (pre-filter, partition, labelling, balancing) the name
    [combined_df] still refers to the loaded table, unchanged: the stages
    assign new objects to other names, and their changes in place
    ([set_index], [sort_index]) go to the derived tables [data], [train]
    and [test]. *)
Theorem loaded_dataset_unchanged cfg dfs σ0 ms σ :
  cell3 dfs empty_store = Some ((), σ0) →
  ms `prefix_of` stages cfg →
  run ms σ0 = Some σ →
  ∃ df, load dfs = Some df ∧ (fst <$> table "combined_df" σ) = Some df.
Proof.
  intros (df & Hload & Hσ0)%cell3_untouched [ms' Hms] Hrun.
  exists df. split; [done|].
  assert (Forall (preserves 0 (Table df)) ms) as Hpres.
  { assert (Forall (preserves 0 (Table df)) (stages cfg)) as Hall.
    { unfold stages.
      apply Forall_cons_2; [apply preserves_cell5|].
      apply Forall_cons_2; [apply preserves_cell7|].
      apply Forall_cons_2; [apply preserves_cell9|].
      apply Forall_cons_2; [apply preserves_cell13|]. apply Forall_nil_2. }
    rewrite Hms in Hall. by apply Forall_app in Hall as [? _]. }
  destruct (preserves_run _ _ _ _ _ Hpres Hrun Hσ0) as (Hname & Hobj & _).
  unfold table, deref, mbind, M_bind, lift. cbn. by rewrite Hname; cbn; rewrite Hobj.
Qed.

Lemma loaded_dataset_unchanged_witness :
  ∃ σ, notebook asset_config [fleet] = Some σ
       ∧ ∃ df, load [fleet] = Some df
               ∧ (fst <$> table "combined_df" σ) = Some df.
Proof.
  eexists. split; [by vm_compute|].
  eapply (loaded_dataset_unchanged asset_config [fleet] _ (stages asset_config)).
  - reflexivity.
  - reflexivity.
  - by vm_compute.
Defined.

(** The whole notebook runs on the fleet under either strategy and
    balances the training labels. *)
Example notebook_runs_on_fleet :
  (σ ← notebook asset_config [fleet];
   Y ← fst <$> values "Y_train_res" σ;
   Some (count_of (Str "") Y, count_of (Str "F2") Y)) = Some (14, 14)%nat
  ∧ (σ ← notebook time_config [fleet];
     Y ← fst <$> values "Y_train_res" σ;
     Some (count_of (Str "") Y, count_of (Str "F1") Y)) = Some (21, 21)%nat.
Proof. split; by vm_compute. Qed.

(** The partition does change a table in place: the one bound to [data].
    In the notebook that is the pre-filtered table, a new object; in the
    variant without pre-filter it is the loaded table itself, which the
    time-dependent split leaves indexed by [entryID]. *)
Example split_changes_data_in_place :
  (σ0 ← snd <$> cell3 [fleet] empty_store;
   σ1 ← run [cell5 time_config] σ0;
   σ2 ← run [cell7 time_config] σ1;
   before ← fst <$> table "data" σ1;
   after ← fst <$> table "data" σ2;
   Some (index_name before, index_name after)) = Some (None, Some "entryID")
  ∧ (σ0 ← snd <$> variant_cell3 [fleet] empty_store;
     σ1 ← run [cell7 time_config] σ0;
     loaded ← fst <$> table "data" σ0;
     after ← fst <$> table "data" σ1;
     Some (index_name loaded, index_name after)) = Some (None, Some "entryID").
Proof. split; by vm_compute. Qed.

(** ** The derived tables in the store

    What the cells do to the tables they derive.  A [triple] follows the
    object of one name through the statements of a cell, whatever else the
    store holds. *)

Section triples.
Context (x : string) (l : nat) (o : object).
Implicit Types ys : list string.

Lemma triple_bind {A B} P R Q (m : M A) (k : A → M B) :
  triple P m R → (∀ a, triple R (k a) Q) → triple P (m ≫= k) Q.
Proof.
  intros Hm Hk σ b σ' H Hσ. unfold mbind, M_bind in H.
  destruct (m σ) as [[a σ1]|] eqn:E; [|done]. eapply Hk; eauto.
Qed.

Lemma triple_conseq {A} (P Q Q' : Store → Prop) (m : M A) :
  (∀ σ, Q' σ → Q σ) → triple P m Q' → triple P m Q.
Proof. intros HQ Hm σ a σ' H Hσ. eapply HQ, Hm; eauto. Qed.

Lemma triple_exist {A B} (P : B → Store → Prop) Q (m : M A) :
  (∀ b, triple (P b) m Q) → triple (λ σ, ∃ b, P b σ) m Q.
Proof. intros Hm σ a σ' H [b Hσ]. eapply Hm; eauto. Qed.

Lemma triple_pure {A} (φ : Prop) P Q (m : M A) :
  (φ → triple P m Q) → triple (λ σ, φ ∧ P σ) m Q.
Proof. intros Hm σ a σ' H [Hφ Hσ]. eapply Hm; eauto. Qed.

Lemma triple_weaken {A} ys ys' P (m : M A) :
  ys' ⊆ ys → triple P m (refers x ys l o) → triple P m (refers x ys' l o).
Proof.
  intros Hsub Hm σ a σ' H Hσ. destruct (Hm σ a σ' H Hσ) as (? & ? & Hys).
  repeat split; [done..|]. intros y Hy. by apply Hys, Hsub.
Qed.

Lemma triple_lift {A} P (c : option A) : triple P (lift c) P.
Proof. intros σ a σ' H Hσ. unfold lift in H. by destruct c; simplify_eq/=. Qed.

Lemma triple_deref P y : triple P (deref y) P.
Proof.
  intros σ a σ' H Hσ. unfold deref in H.
  destruct (names σ !! y) as [l'|]; [|done]. simpl in H.
  destruct (heap σ !! l'); by simplify_eq/=.
Qed.

Lemma triple_table P y : triple P (table y) P.
Proof. eapply triple_bind; [apply triple_deref|]. intros. apply triple_lift. Qed.

Lemma triple_values P y : triple P (values y) P.
Proof. eapply triple_bind; [apply triple_deref|]. intros. apply triple_lift. Qed.

(** An assignment to another name binds that name to a new object. *)
Lemma triple_assign ys y o' :
  y ≠ x → triple (refers x ys l o) (assign y o') (refers x (y :: ys) l o).
Proof.
  intros Hy σ [] σ' [= <-] (Hname & Hobj & Hys). repeat split; simpl.
  - by rewrite lookup_insert_ne.
  - by rewrite lookup_app_l by (by eapply lookup_lt_Some).
  - intros z Hz. destruct (decide (y = z)) as [<-|Hne].
    + rewrite lookup_insert_eq. intros [= Hl].
      apply lookup_lt_Some in Hobj. lia.
    + rewrite lookup_insert_ne by done. apply Hys.
      by apply elem_of_cons in Hz as [->|Hz].
Qed.

(** A change in place through a name that refers to another object. *)
Lemma triple_inplace ys y g :
  y ∈ ys → triple (refers x ys l o) (inplace y g) (refers x ys l o).
Proof.
  intros Hy σ [] σ' H (Hname & Hobj & Hys). unfold inplace in H.
  destruct (names σ !! y) as [l'|] eqn:Hl'; [|done]. simpl in H.
  destruct (heap σ !! l') as [[df| |]|]; try done. simpl in H.
  destruct (g df) as [df'|]; [|done]. simpl in H. injection H as <-.
  repeat split; simpl; [done| |done].
  rewrite list_lookup_insert_ne; [done|]. intros ->. by apply (Hys y).
Qed.

(** A change in place through the name itself changes its object. *)
Lemma triple_inplace_self ys d g :
  triple (refers x ys l (Table d)) (inplace x g)
    (λ σ, ∃ d', g d = Some d' ∧ refers x ys l (Table d') σ).
Proof.
  intros σ [] σ' H (Hname & Hobj & Hys). unfold inplace in H.
  rewrite Hname in H. cbn in H. rewrite Hobj in H. cbn in H.
  destruct (g d) as [d'|]; [|done]. cbn in H. injection H as <-.
  exists d'. split; [done|]. repeat split; cbn; [done| |done].
  apply list_lookup_insert_eq. by eapply lookup_lt_Some.
Qed.
End triples.

(** One statement of a cell that leaves the object of a name alone. *)
Ltac triple_step :=
  match goal with
  | |- triple _ (mbind _ (assign _ _)) _ =>
      eapply triple_bind; [apply triple_assign; done|intros ?]
  | |- triple _ (mbind _ (inplace _ _)) _ =>
      eapply triple_bind; [apply triple_inplace; set_solver|intros ?]
  | |- triple _ (mbind _ (table _)) _ =>
      eapply triple_bind; [apply triple_table|intros ?]
  | |- triple _ (mbind _ (values _)) _ =>
      eapply triple_bind; [apply triple_values|intros ?]
  | |- triple _ (mbind _ (lift _)) _ =>
      eapply triple_bind; [apply triple_lift|intros ?]
  | |- triple _ (assign _ _) _ =>
      eapply triple_weaken; [|apply triple_assign; done]; set_solver
  | |- triple _ (inplace _ _) _ =>
      eapply triple_weaken; [|apply triple_inplace; set_solver]; set_solver
  | |- triple _ (match ?p with _ => _ end) _ => destruct p
  end.

Lemma M_bind_Some {A B} (m : M A) (k : A → M B) σ b σ' :
  (m ≫= k) σ = Some (b, σ') → ∃ a σ1, m σ = Some (a, σ1) ∧ k a σ1 = Some (b, σ').
Proof.
  unfold mbind, M_bind. destruct (m σ) as [[a σ1]|]; [|done]. eauto.
Qed.

Lemma inplace_Some y g σ u σ' :
  inplace y g σ = Some (u, σ') →
  ∃ l df, names σ !! y = Some l ∧ heap σ !! l = Some (Table df).
Proof.
  unfold inplace. intros H.
  destruct (names σ !! y) as [l|]; [|done]. simpl in H.
  destruct (heap σ !! l) as [[df| |]|] eqn:Hobj; try done. eauto.
Qed.

Lemma table_Some y σ df σ' :
  table y σ = Some (df, σ') →
  σ' = σ ∧ ∃ l, refers y [] l (Table df) σ.
Proof.
  unfold table, deref, lift, mbind, M_bind. intros H.
  destruct (names σ !! y) as [l|] eqn:Hname; [|done]. cbn in H.
  destruct (heap σ !! l) as [[df'| |]|] eqn:Hobj; try done. cbn in H.
  injection H as <- <-. split; [done|]. exists l. repeat split; [done..|].
  by intros z ?%elem_of_nil.
Qed.

Lemma read_table y ys l df σ :
  refers y ys l (Table df) σ → (fst <$> table y σ) = Some df.
Proof.
  intros (Hname & Hobj & _). unfold table, deref, lift, mbind, M_bind.
  by rewrite Hname; cbn; rewrite Hobj.
Qed.

(** The time-dependent split re-indexes and sorts the table of [data]
    itself; its other statements leave that table alone. *)
Lemma cell7_time_data cfg l d :
  triple (refers "data" [] l (Table d)) (cell7_time cfg)
    (λ σ, ∃ d1, set_index "entryID" d = Some d1
                ∧ refers "data" [] l (Table (sort_index d1)) σ).
Proof.
  unfold cell7_time.
  eapply triple_bind; [apply triple_inplace_self|]. intros [].
  apply triple_exist. intros d1. apply (triple_pure (_ = _)). intros Hd1.
  eapply triple_bind; [apply triple_inplace_self|]. intros [].
  apply triple_exist. intros d2. apply (triple_pure (_ = _)). intros [= <-].
  apply (triple_conseq _ _ (refers "data" [] l (Table (sort_index d1))));
    [by eauto|].
  repeat triple_step.
Qed.

(** X14: the time-dependent split changes the table bound to [data] in
    place.  After the cell, [data] is no longer the table the pre-filter
    returned, but that table indexed by [entryID] and sorted by it. *)
Theorem time_split_changes_data_in_place cfg σ σ' d :
  time_split cfg = true →
  table "data" σ = Some (d, σ) →
  cell7 cfg σ = Some ((), σ') →
  ∃ d1, set_index "entryID" d = Some d1
        ∧ (fst <$> table "data" σ') = Some (sort_index d1).
Proof.
  unfold cell7. intros -> [_ [l Hd]]%table_Some H.
  destruct (cell7_time_data cfg l d _ _ _ H Hd) as (d1 & Hd1 & Hd').
  exists d1. split; [done|]. by eapply read_table.
Qed.

Lemma time_split_changes_data_in_place_witness :
  ∃ σ σ' d,
    (snd <$> cell3 [fleet] empty_store) ≫= run [cell5 time_config] = Some σ
    ∧ table "data" σ = Some (d, σ)
    ∧ cell7 time_config σ = Some ((), σ')
    ∧ ∃ d1, set_index "entryID" d = Some d1
            ∧ (fst <$> table "data" σ') = Some (sort_index d1).
Proof.
  eexists _, _, _. split; [by vm_compute|].
  unshelve refine ((λ Hd Hrun, conj Hd (conj Hrun
            (time_split_changes_data_in_place time_config _ _ _ eq_refl Hd Hrun)))
          _ _); try (by vm_compute).
Defined.

(** *** The cells, run on any store

    Each cell computes its function of the tables it reads, wherever they
    lie in the store.  The store a cell has reached is described as an
    extension of the store it started from. *)

Section extended.
Context (σ : Store).
Implicit Types os : list object.
Implicit Types nm : gmap string nat.

Lemma extended_base : σ = extended σ [] (names σ).
Proof. unfold extended. rewrite app_nil_r. by destruct σ. Qed.

Lemma assign_extended x o os nm :
  assign x o (extended σ os nm)
  = Some ((), extended σ (os ++ [o]) (<[x := (length (heap σ) + length os)%nat]> nm)).
Proof. unfold assign, extended. cbn. by rewrite length_app, app_assoc. Qed.

Lemma deref_new x k o os nm :
  nm !! x = Some (length (heap σ) + k)%nat → os !! k = Some o →
  deref x (extended σ os nm) = Some (o, extended σ os nm).
Proof.
  intros Hx Hk. unfold deref, extended. cbn. rewrite Hx. cbn.
  rewrite lookup_app_r by lia.
  replace (length (heap σ) + k - length (heap σ))%nat with k by lia.
  by rewrite Hk.
Qed.

Lemma deref_old x l o os nm :
  nm !! x = Some l → heap σ !! l = Some o →
  deref x (extended σ os nm) = Some (o, extended σ os nm).
Proof.
  intros Hx Hl. unfold deref, extended. cbn. rewrite Hx. cbn.
  rewrite lookup_app_l by (by eapply lookup_lt_Some). by rewrite Hl.
Qed.

Lemma inplace_new x k d d' g os nm :
  nm !! x = Some (length (heap σ) + k)%nat → os !! k = Some (Table d) →
  g d = Some d' →
  inplace x g (extended σ os nm)
  = Some ((), extended σ (<[k := Table d']> os) nm).
Proof.
  intros Hx Hk Hg. unfold inplace, extended. cbn. rewrite Hx. cbn.
  rewrite lookup_app_r by lia.
  replace (length (heap σ) + k - length (heap σ))%nat with k by lia.
  rewrite Hk. cbn. rewrite Hg. cbn. by rewrite insert_app_r.
Qed.

Lemma inplace_new_None x k d g os nm :
  nm !! x = Some (length (heap σ) + k)%nat → os !! k = Some (Table d) →
  g d = None →
  inplace x g (extended σ os nm) = None.
Proof.
  intros Hx Hk Hg. unfold inplace, extended. cbn. rewrite Hx. cbn.
  rewrite lookup_app_r by lia.
  replace (length (heap σ) + k - length (heap σ))%nat with k by lia.
  rewrite Hk. cbn. by rewrite Hg.
Qed.
End extended.

Lemma run_bind {A B} (m : M A) (k : A → M B) τ a τ' :
  m τ = Some (a, τ') → (m ≫= k) τ = k a τ'.
Proof. intros H. unfold mbind, M_bind. by rewrite H. Qed.

Lemma run_bind_None {A B} (m : M A) (k : A → M B) τ :
  m τ = None → (m ≫= k) τ = None.
Proof. intros H. unfold mbind, M_bind. by rewrite H. Qed.

Section extended_tables.
Context (σ : Store).
Implicit Types os : list object.
Implicit Types nm : gmap string nat.

Lemma table_old x l d os nm :
  nm !! x = Some l → heap σ !! l = Some (Table d) →
  table x (extended σ os nm) = Some (d, extended σ os nm).
Proof.
  intros Hx Hl. unfold table. by erewrite run_bind by (by eapply deref_old).
Qed.

Lemma table_new x k d os nm :
  nm !! x = Some (length (heap σ) + k)%nat → os !! k = Some (Table d) →
  table x (extended σ os nm) = Some (d, extended σ os nm).
Proof.
  intros Hx Hk. unfold table. by erewrite run_bind by (by eapply deref_new).
Qed.

Lemma values_new x k v os nm :
  nm !! x = Some (length (heap σ) + k)%nat → os !! k = Some (Values v) →
  values x (extended σ os nm) = Some (v, extended σ os nm).
Proof.
  intros Hx Hk. unfold values. by erewrite run_bind by (by eapply deref_new).
Qed.
End extended_tables.

Lemma read_extended_new σ x k d os nm :
  nm !! x = Some (length (heap σ) + k)%nat → os !! k = Some (Table d) →
  (fst <$> table x (extended σ os nm)) = Some d.
Proof. intros Hx Hk. by erewrite table_new. Qed.

Lemma read_extended_old σ x l d os nm :
  nm !! x = Some l → heap σ !! l = Some (Table d) →
  (fst <$> table x (extended σ os nm)) = Some d.
Proof. intros Hx Hl. by erewrite table_old. Qed.

Lemma read_values_new σ x k v os nm :
  nm !! x = Some (length (heap σ) + k)%nat → os !! k = Some (Values v) →
  (fst <$> values x (extended σ os nm)) = Some v.
Proof. intros Hx Hk. by erewrite values_new. Qed.

(** The lookups in a store extended from a base store, and the steps of
    a cell on such a store. *)
Ltac lookup_new := first [ by simplify_map_eq | reflexivity ].

Ltac run_assign :=
  erewrite (run_bind (assign _ _)) by apply assign_extended;
  cbn [app length].

Ltac run_lift a :=
  rewrite (run_bind (lift (Some a)) _ _ a _ eq_refl); cbn [mbind option_bind].

Section prefilter_cell.
Local Opaque groupby_agg join_on df_drop df_filter.

Lemma cell5_run cfg σ l df :
  names σ !! "combined_df" = Some l → heap σ !! l = Some (Table df) →
  match prefilter (w cfg) df with
  | Some data =>
      ∃ os nm k,
        cell5 cfg σ = Some ((), extended σ os nm)
        ∧ nm !! "combined_df" = Some l
        ∧ nm !! "data" = Some (length (heap σ) + k)%nat
        ∧ os !! k = Some (Table data)
  | None => cell5 cfg σ = None
  end.
Proof.
  intros Hname Hobj.
  replace (cell5 cfg σ) with (cell5 cfg (extended σ [] (names σ)))
    by (by rewrite <- extended_base).
  unfold cell5, prefilter.
  erewrite (run_bind (table "combined_df")) by (by eapply table_old).
  destruct (guard ("rul" ∈ columns df)) as [Hrul|]; [|done].
  run_lift Hrul.
  destruct (groupby_agg _ _ _ _) as [s|]; [|done].
  run_lift s.
  destruct (join_on _ _ _ _) as [j|]; [|done].
  run_lift j.
  run_assign.
  erewrite (run_bind (table _)) by (eapply table_new; lookup_new).
  destruct (df_drop _ _) as [data|]; [|done].
  run_lift data.
  rewrite assign_extended. cbn [app length].
  eexists _, _, 1%nat. split; [reflexivity|].
  repeat split; try done; by simplify_map_eq.
Qed.
End prefilter_cell.

(** X15: the pre-filter cell rebuilds [data] from the loaded table, on
    any store in which [combined_df] is bound to a table.  It returns
    exactly when the pre-filter of that table does; it then binds [data]
    to the result, whatever [data] was bound to before, and leaves
    [combined_df] unchanged. *)
Theorem prefilter_cell_rebuilds_data cfg σ df :
  table "combined_df" σ = Some (df, σ) →
  match prefilter (w cfg) df with
  | Some data =>
      ∃ σ', cell5 cfg σ = Some ((), σ')
            ∧ (fst <$> table "combined_df" σ') = Some df
            ∧ (fst <$> table "data" σ') = Some data
  | None => cell5 cfg σ = None
  end.
Proof.
  intros [_ (l & Hname & Hobj & _)]%table_Some.
  pose proof (cell5_run cfg σ l df Hname Hobj) as Hrun.
  destruct (prefilter (w cfg) df) as [data|]; [|done].
  destruct Hrun as (os & nm & k & Hσ' & Hdf & Hd & Hk).
  eexists. split; [exact Hσ'|]. split.
  - by eapply read_extended_old.
  - by eapply read_extended_new.
Qed.

Lemma prefilter_cell_rebuilds_data_witness :
  ∃ σ df,
    cell3 [two_machines] empty_store = Some ((), σ)
    ∧ table "combined_df" σ = Some (df, σ)
    ∧ match prefilter 2 df with
      | Some data =>
          ∃ σ', cell5 (mkConfig 2 5 (1 # 2) false (seq 0)) σ = Some ((), σ')
                ∧ (fst <$> table "combined_df" σ') = Some df
                ∧ (fst <$> table "data" σ') = Some data
      | None => cell5 (mkConfig 2 5 (1 # 2) false (seq 0)) σ = None
      end.
Proof.
  eexists _, _. split; [by vm_compute|].
  unshelve refine ((λ Hdf, conj Hdf
            (prefilter_cell_rebuilds_data (mkConfig 2 5 (1 # 2) false (seq 0)) _ _ Hdf))
          _); try (by vm_compute).
Defined.

Section time_cell.
Local Opaque reset_index set_index sort_index groupby_agg join_on df_drop
  df_filter train_test_split_ordered.

(** A change in place of an object of the base store. *)
Lemma inplace_old σ x l d d' g :
  names σ !! x = Some l → heap σ !! l = Some (Table d) → g d = Some d' →
  inplace x g σ = Some ((), mkStore (<[l := Table d']> (heap σ)) (names σ)).
Proof.
  intros Hx Hl Hg. unfold inplace. rewrite Hx. cbn. rewrite Hl. cbn.
  by rewrite Hg.
Qed.

Lemma inplace_old_None σ x l d g :
  names σ !! x = Some l → heap σ !! l = Some (Table d) → g d = None →
  inplace x g σ = None.
Proof.
  intros Hx Hl Hg. unfold inplace. rewrite Hx. cbn. rewrite Hl. cbn.
  by rewrite Hg.
Qed.

Lemma cell7_time_run cfg σ l d :
  names σ !! "data" = Some l → heap σ !! l = Some (Table d) →
  match time_dependent_split (lookback cfg) (test_size cfg) d with
  | Some (train, test) =>
      ∃ σ2 os nm kt ke,
        cell7_time cfg σ = Some ((), extended σ2 os nm)
        ∧ length (heap σ2) = length (heap σ)
        ∧ nm !! "train" = Some (length (heap σ2) + kt)%nat
        ∧ os !! kt = Some (Table train)
        ∧ nm !! "test" = Some (length (heap σ2) + ke)%nat
        ∧ os !! ke = Some (Table test)
  | None => cell7_time cfg σ = None
  end.
Proof.
  intros Hname Hobj. unfold cell7_time, time_dependent_split, exclude_lookback.
  destruct (set_index "entryID" d) as [d1|] eqn:Hd1; cbn [mbind option_bind].
  2:{ apply run_bind_None. by eapply inplace_old_None. }
  erewrite (run_bind (inplace _ _)) by (by eapply inplace_old).
  pose proof (lookup_lt_Some _ _ _ Hobj) as Hl.
  erewrite (run_bind (inplace _ _)).
  2:{ eapply inplace_old; [exact Hname| |reflexivity]. cbn.
      by apply list_lookup_insert_eq. }
  cbn [heap names]. rewrite list_insert_insert_eq.
  set (σ2 := mkStore (<[l := Table (sort_index d1)]> (heap σ)) (names σ)).
  assert (names σ2 !! "data" = Some l) as Hname2 by done.
  assert (heap σ2 !! l = Some (Table (sort_index d1))) as Hobj2
    by (by apply list_lookup_insert_eq).
  assert (length (heap σ2) = length (heap σ)) as Hlen by apply length_insert.
  rewrite (extended_base σ2).
  erewrite (run_bind (table "data")) by (by eapply table_old).
  destruct (train_test_split_ordered _ _) as [[tr te]|]; [|done].
  run_lift (tr, te).
  do 2 run_assign.
  erewrite (run_bind (table "test")) by (eapply table_new; lookup_new).
  destruct (reset_index (mkDF _ _ te)) as [test'|]; [|done]. run_lift test'.
  destruct (groupby_agg _ _ _ _) as [s|]; [|done]. run_lift s.
  run_assign.
  erewrite (run_bind (table "train")) by (eapply table_new; lookup_new).
  destruct (reset_index (mkDF _ _ tr)) as [train'|]; [|done]. run_lift train'.
  destruct (join_on _ _ _ _) as [j|]; [|done]. run_lift j.
  run_assign.
  erewrite (run_bind (table "t")) by (eapply table_new; lookup_new).
  destruct (df_drop _ _) as [t'|]; [|done]. run_lift t'.
  run_assign.
  destruct (set_index "entryID" t') as [train|] eqn:Htrain; cbn [mbind option_bind].
  2:{ eapply inplace_new_None; [lookup_new..|done]. }
  erewrite inplace_new by (first [lookup_new|done]).
  eexists σ2, _, _, 4%nat, 1%nat. split; [reflexivity|].
  cbn [insert list_insert]. repeat split; try done; by simplify_map_eq.
Qed.
End time_cell.

Section asset_rerun.
Local Opaque reset_index set_index df_filter train_test_split_shuffled unique col.

Lemma cell7_asset_run cfg σ l d :
  names σ !! "data" = Some l → heap σ !! l = Some (Table d) →
  match asset_split (permutation cfg) (test_size cfg) d with
  | Some (train, test) =>
      ∃ os nm kt ke,
        cell7_asset cfg σ = Some ((), extended σ os nm)
        ∧ nm !! "data" = Some l
        ∧ nm !! "train" = Some (length (heap σ) + kt)%nat
        ∧ os !! kt = Some (Table train)
        ∧ nm !! "test" = Some (length (heap σ) + ke)%nat
        ∧ os !! ke = Some (Table test)
  | None => cell7_asset cfg σ = None
  end.
Proof.
  intros Hname Hobj.
  replace (cell7_asset cfg σ) with (cell7_asset cfg (extended σ [] (names σ)))
    by (by rewrite <- extended_base).
  unfold cell7_asset, asset_split.
  erewrite (run_bind (table "data")) by (by eapply table_old).
  destruct (reset_index d) as [data'|]; [|done].
  run_lift data'.
  destruct (guard ("machineID" ∈ columns data')) as [Hm'|]; [|done].
  run_lift Hm'.
  run_assign.
  erewrite (run_bind (values _)) by (eapply values_new; lookup_new).
  destruct (train_test_split_shuffled _ _ _) as [[train_assets test_assets]|];
    [|done].
  run_lift (train_assets, test_assets).
  do 2 run_assign.
  destruct (guard ("machineID" ∈ columns d)) as [Hm|]; [|done].
  run_lift Hm.
  do 2 run_assign.
  destruct (set_index "entryID" (df_filter (isin train_assets) d))
    as [train|] eqn:Htrain; cbn [mbind option_bind].
  2:{ apply run_bind_None. eapply inplace_new_None; [lookup_new..|done]. }
  erewrite (run_bind (inplace _ _)) by (eapply inplace_new; [lookup_new..|done]).
  cbn [insert list_insert].
  destruct (set_index "entryID" (df_filter (isin test_assets) d))
    as [test|] eqn:Htest; cbn [mbind option_bind].
  2:{ eapply inplace_new_None; [lookup_new..|done]. }
  erewrite inplace_new by (first [lookup_new|done]).
  eexists _, _, 3%nat, 4%nat. split; [reflexivity|].
  cbn [insert list_insert]. repeat split; try done; by simplify_map_eq.
Qed.

End asset_rerun.

(** X16: the split cell computes the partition, on any store in which
    [data] is bound to a table.  Under either strategy it returns exactly
    when the partition of that table does, and then binds [train] and
    [test] to its two sets. *)
Theorem split_cell_computes_partition cfg σ d :
  table "data" σ = Some (d, σ) →
  match partition (time_split cfg) (permutation cfg) (lookback cfg)
          (test_size cfg) d with
  | Some (train, test) =>
      ∃ σ', cell7 cfg σ = Some ((), σ')
            ∧ (fst <$> table "train" σ') = Some train
            ∧ (fst <$> table "test" σ') = Some test
  | None => cell7 cfg σ = None
  end.
Proof.
  intros [_ (l & Hname & Hobj & _)]%table_Some. unfold partition, cell7.
  destruct (time_split cfg).
  - pose proof (cell7_time_run cfg σ l d Hname Hobj) as Hrun.
    destruct (time_dependent_split _ _ d) as [[train test]|]; [|done].
    destruct Hrun as (σ2 & os & nm & kt & ke & Hσ' & _ & Htr & Hkt & Hte & Hke).
    eexists. split; [exact Hσ'|]. split; by eapply read_extended_new.
  - pose proof (cell7_asset_run cfg σ l d Hname Hobj) as Hrun.
    destruct (asset_split _ _ d) as [[train test]|]; [|done].
    destruct Hrun as (os & nm & kt & ke & Hσ' & _ & Htr & Hkt & Hte & Hke).
    eexists. split; [exact Hσ'|]. split; by eapply read_extended_new.
Qed.

Lemma split_cell_computes_partition_witness :
  ∃ σ d,
    (snd <$> cell3 [fleet] empty_store) ≫= run [cell5 time_config] = Some σ
    ∧ table "data" σ = Some (d, σ)
    ∧ match partition (time_split time_config) (permutation time_config)
              (lookback time_config) (test_size time_config) d with
      | Some (train, test) =>
          ∃ σ', cell7 time_config σ = Some ((), σ')
                ∧ (fst <$> table "train" σ') = Some train
                ∧ (fst <$> table "test" σ') = Some test
      | None => cell7 time_config σ = None
      end.
Proof.
  eexists _, _. split; [by vm_compute|].
  unshelve refine ((λ Hd, conj Hd
            (split_cell_computes_partition time_config _ _ Hd)) _);
    try (by vm_compute).
Defined.

(** X17: the split cell cannot be run again after a time-dependent
    split.  Once that split has returned, [data] has lost its [entryID]
    column to the index, and the cell raises under either strategy until
    [data] is rebuilt. *)
Theorem time_split_not_rerunnable cfg cfg' σ σ' :
  time_split cfg = true →
  cell7 cfg σ = Some ((), σ') → cell7 cfg' σ' = None.
Proof.
  unfold cell7 at 1. intros -> H.
  assert (∃ l d, refers "data" [] l (Table d) σ) as (l & d & Hd).
  { unfold cell7_time in H. apply M_bind_Some in H as ([] & σ1 & H & _).
    apply inplace_Some in H as (l & d & ? & ?). exists l, d.
    repeat split; [done..|]. by intros z ?%elem_of_nil. }
  destruct (cell7_time_data cfg l d _ _ _ H Hd) as (d1 & Hd1 & Hname & Hobj & _).
  apply set_index_indexed in Hd1 as (_ & Hcol & _).
  assert ("entryID" ∉ columns (sort_index d1)) as Hcol' by done.
  unfold cell7. destruct (time_split cfg').
  - pose proof (cell7_time_run cfg' σ' l _ Hname Hobj) as Hrun.
    destruct (time_dependent_split _ _ _) as [[train test]|] eqn:Hsplit; [|done].
    apply time_dependent_split_Some_ok in Hsplit as [Hcols _].
    by apply Forall_cons in Hcols as [? _].
  - pose proof (cell7_asset_run cfg' σ' l _ Hname Hobj) as Hrun.
    destruct (asset_split _ _ _) as [[train test]|] eqn:Hsplit; [|done].
    apply asset_split_Some_ok in Hsplit as [Hcols _].
    by apply Forall_cons in Hcols as [? _].
Qed.

Lemma time_split_not_rerunnable_witness :
  ∃ σ σ',
    (snd <$> cell3 [fleet] empty_store) ≫= run [cell5 time_config] = Some σ
    ∧ cell7 time_config σ = Some ((), σ')
    ∧ cell7 asset_config σ' = None.
Proof.
  eexists _, _. split; [by vm_compute|].
  unshelve refine ((λ Hrun, conj Hrun
            (time_split_not_rerunnable time_config asset_config _ _ eq_refl Hrun)) _);
    try (by vm_compute).
Defined.

(** X18: the asset ID-based split works on copies.  The cell leaves the
    table bound to [data] unchanged and binds [train] and [test] to the
    two sets of the split of that table; run again, it returns again and
    leaves the same three tables. *)
Theorem asset_split_rerunnable cfg σ σ' d :
  time_split cfg = false →
  table "data" σ = Some (d, σ) →
  cell7 cfg σ = Some ((), σ') →
  ∃ train test σ'',
    asset_split (permutation cfg) (test_size cfg) d = Some (train, test)
    ∧ cell7 cfg σ' = Some ((), σ'')
    ∧ Forall (λ τ, (fst <$> table "data" τ) = Some d
                   ∧ (fst <$> table "train" τ) = Some train
                   ∧ (fst <$> table "test" τ) = Some test) [σ'; σ''].
Proof.
  unfold cell7. intros -> [_ (l & Hname & Hobj & _)]%table_Some H.
  pose proof (cell7_asset_run cfg σ l d Hname Hobj) as Hrun.
  destruct (asset_split _ _ d) as [[train test]|] eqn:Hsplit;
    [|by rewrite Hrun in H].
  destruct Hrun as (os & nm & kt & ke & Hσ' & Hd & Htr & Hkt & Hte & Hke).
  rewrite Hσ' in H. injection H as <-.
  assert (heap (extended σ os nm) !! l = Some (Table d)) as Hobj'.
  { unfold extended. cbn. by rewrite lookup_app_l by (by eapply lookup_lt_Some). }
  pose proof (cell7_asset_run cfg (extended σ os nm) l d Hd Hobj') as Hrun'.
  rewrite Hsplit in Hrun'.
  destruct Hrun' as (os' & nm' & kt' & ke' & Hσ'' & Hd' & Htr' & Hkt' & Hte' & Hke').
  exists train, test, (extended (extended σ os nm) os' nm').
  split; [done|]. split; [done|].
  repeat (apply Forall_cons; split); [| |done].
  - split; [by eapply read_extended_old|].
    split; by eapply read_extended_new.
  - split; [by eapply read_extended_old|].
    split; by eapply read_extended_new.
Qed.

Lemma asset_split_rerunnable_witness :
  ∃ σ σ' d,
    (snd <$> cell3 [fleet] empty_store) ≫= run [cell5 asset_config] = Some σ
    ∧ table "data" σ = Some (d, σ)
    ∧ cell7 asset_config σ = Some ((), σ')
    ∧ ∃ train test σ'',
        asset_split (permutation asset_config) (test_size asset_config) d
        = Some (train, test)
        ∧ cell7 asset_config σ' = Some ((), σ'')
        ∧ Forall (λ τ, (fst <$> table "data" τ) = Some d
                       ∧ (fst <$> table "train" τ) = Some train
                       ∧ (fst <$> table "test" τ) = Some test) [σ'; σ''].
Proof.
  eexists _, _, _. split; [by vm_compute|].
  unshelve refine ((λ Hd Hrun, conj Hd (conj Hrun
            (asset_split_rerunnable asset_config _ _ _ eq_refl Hd Hrun)))
          _ _); try (by vm_compute).
Defined.

Section loaded_frame.
Context (l : nat) (o : object).

Lemma cell5_loaded cfg :
  triple (refers "combined_df" [] l o) (cell5 cfg) (refers "combined_df" ["data"] l o).
Proof.
  unfold cell5. repeat triple_step.
Qed.

Lemma cell7_loaded cfg :
  triple (refers "combined_df" ["data"] l o) (cell7 cfg) (refers "combined_df" [] l o).
Proof. unfold cell7, cell7_time, cell7_asset. repeat triple_step. Qed.
End loaded_frame.

(** X19: the pre-filter cell and the split cell can be run again at any
    time.  On any store in which [combined_df] is bound to a table, even
    after a time-dependent split has changed [data] in place, the two
    cells return when the pre-filter and the partition do; they bind
    [train] and [test] to the partition of the pre-filtered loaded
    table, and they leave the loaded table unchanged. *)
Theorem prefilter_and_split_rerunnable cfg σ df data train test :
  table "combined_df" σ = Some (df, σ) →
  prefilter (w cfg) df = Some data →
  partition (time_split cfg) (permutation cfg) (lookback cfg) (test_size cfg) data
  = Some (train, test) →
  ∃ σ1 σ2,
    cell5 cfg σ = Some ((), σ1)
    ∧ cell7 cfg σ1 = Some ((), σ2)
    ∧ (fst <$> table "combined_df" σ2) = Some df
    ∧ (fst <$> table "train" σ2) = Some train
    ∧ (fst <$> table "test" σ2) = Some test.
Proof.
  intros [_ (l & Hdf)]%table_Some Hdata Hsplit.
  pose proof Hdf as (Hname & Hobj & _).
  pose proof (cell5_run cfg σ l df Hname Hobj) as Hrun5. rewrite Hdata in Hrun5.
  destruct Hrun5 as (os & nm & k & Hσ1 & _ & Hd & Hk).
  set (σ1 := extended σ os nm) in *.
  assert (table "data" σ1 = Some (data, σ1)) as Hd1 by (by eapply table_new).
  apply table_Some in Hd1 as [_ (l1 & Hname1 & Hobj1 & _)].
  assert (∃ σ2, cell7 cfg σ1 = Some ((), σ2)
                ∧ (fst <$> table "train" σ2) = Some train
                ∧ (fst <$> table "test" σ2) = Some test) as (σ2 & Hσ2 & Htr & Hte).
  { unfold cell7, partition in *. destruct (time_split cfg).
    - pose proof (cell7_time_run cfg σ1 l1 data Hname1 Hobj1) as Hrun.
      rewrite Hsplit in Hrun.
      destruct Hrun as (σ' & os' & nm' & kt & ke & Hrun & _ & ? & ? & ? & ?).
      eexists. split; [exact Hrun|]. split; by eapply read_extended_new.
    - pose proof (cell7_asset_run cfg σ1 l1 data Hname1 Hobj1) as Hrun.
      rewrite Hsplit in Hrun.
      destruct Hrun as (os' & nm' & kt & ke & Hrun & _ & ? & ? & ? & ?).
      eexists. split; [exact Hrun|]. split; by eapply read_extended_new. }
  exists σ1, σ2. split; [done|]. split; [done|]. split; [|done].
  eapply read_table, cell7_loaded; [exact Hσ2|].
  eapply cell5_loaded; [exact Hσ1|exact Hdf].
Qed.

Lemma prefilter_and_split_rerunnable_witness :
  ∃ σ df data train test,
    (snd <$> cell3 [fleet] empty_store)
      ≫= run [cell5 time_config; cell7 time_config] = Some σ
    ∧ table "combined_df" σ = Some (df, σ)
    ∧ prefilter (w time_config) df = Some data
    ∧ partition (time_split time_config) (permutation time_config)
        (lookback time_config) (test_size time_config) data = Some (train, test)
    ∧ ∃ σ1 σ2,
        cell5 time_config σ = Some ((), σ1)
        ∧ cell7 time_config σ1 = Some ((), σ2)
        ∧ (fst <$> table "combined_df" σ2) = Some df
        ∧ (fst <$> table "train" σ2) = Some train
        ∧ (fst <$> table "test" σ2) = Some test.
Proof.
  eexists _, _, _, _, _. split; [by vm_compute|].
  unshelve refine ((λ Hdf Hdata Hsplit, conj Hdf (conj Hdata (conj Hsplit
            (prefilter_and_split_rerunnable time_config _ _ _ _ _
               Hdf Hdata Hsplit)))) _ _ _); try (by vm_compute).
Defined.

Section label_cell.
Local Opaque xy.

Lemma cell9_run cfg σ ltr lte train test :
  names σ !! "train" = Some ltr → heap σ !! ltr = Some (Table train) →
  names σ !! "test" = Some lte → heap σ !! lte = Some (Table test) →
  match xy train (w cfg), xy test (w cfg) with
  | Some (X_train, Y_train), Some (X_test, Y_test) =>
      ∃ os nm,
        cell9 cfg σ = Some ((), extended σ os nm)
        ∧ nm !! "X_train" = Some (length (heap σ) + 0)%nat
        ∧ nm !! "Y_train" = Some (length (heap σ) + 1)%nat
        ∧ nm !! "X_test" = Some (length (heap σ) + 2)%nat
        ∧ nm !! "Y_test" = Some (length (heap σ) + 3)%nat
        ∧ os = [Table X_train; Values Y_train; Table X_test; Values Y_test]
  | _, _ => cell9 cfg σ = None
  end.
Proof.
  intros Hntr Hotr Hnte Hote.
  replace (cell9 cfg σ) with (cell9 cfg (extended σ [] (names σ)))
    by (by rewrite <- extended_base).
  unfold cell9.
  erewrite (run_bind (table "train")) by (by eapply table_old).
  destruct (xy train (w cfg)) as [[X_train Y_train]|]; [|done].
  run_lift (X_train, Y_train).
  do 2 run_assign.
  erewrite (run_bind (table "test")).
  2:{ eapply table_old; [|exact Hote]. by simplify_map_eq. }
  destruct (xy test (w cfg)) as [[X_test Y_test]|]; [|done].
  run_lift (X_test, Y_test).
  run_assign. rewrite assign_extended. cbn [app length].
  eexists _, _. split; [reflexivity|].
  repeat split; by simplify_map_eq.
Qed.
End label_cell.

(** X20: the labelling cell computes [xy] of [train] and of [test], on
    any store in which the two names are bound to tables.  It returns
    exactly when both calls do, and then binds [X_train], [Y_train],
    [X_test] and [Y_test] to their features and labels. *)
Theorem label_cell_computes_xy cfg σ train test :
  table "train" σ = Some (train, σ) → table "test" σ = Some (test, σ) →
  match xy train (w cfg), xy test (w cfg) with
  | Some (X_train, Y_train), Some (X_test, Y_test) =>
      ∃ σ', cell9 cfg σ = Some ((), σ')
            ∧ (fst <$> table "X_train" σ') = Some X_train
            ∧ (fst <$> values "Y_train" σ') = Some Y_train
            ∧ (fst <$> table "X_test" σ') = Some X_test
            ∧ (fst <$> values "Y_test" σ') = Some Y_test
  | _, _ => cell9 cfg σ = None
  end.
Proof.
  intros [_ (ltr & Hntr & Hotr & _)]%table_Some [_ (lte & Hnte & Hote & _)]%table_Some.
  pose proof (cell9_run cfg σ ltr lte train test Hntr Hotr Hnte Hote) as Hrun.
  destruct (xy train (w cfg)) as [[X_train Y_train]|]; [|done].
  destruct (xy test (w cfg)) as [[X_test Y_test]|]; [|done].
  destruct Hrun as (os & nm & Hσ' & H0 & H1 & H2 & H3 & ->).
  eexists. split; [exact Hσ'|].
  split; [by eapply read_extended_new|].
  split; [by eapply read_values_new|].
  split; [by eapply read_extended_new|by eapply read_values_new].
Qed.

Lemma label_cell_computes_xy_witness :
  ∃ σ train test,
    (snd <$> cell3 [fleet] empty_store)
      ≫= run [cell5 asset_config; cell7 asset_config] = Some σ
    ∧ table "train" σ = Some (train, σ)
    ∧ table "test" σ = Some (test, σ)
    ∧ match xy train (w asset_config), xy test (w asset_config) with
      | Some (X_train, Y_train), Some (X_test, Y_test) =>
          ∃ σ', cell9 asset_config σ = Some ((), σ')
                ∧ (fst <$> table "X_train" σ') = Some X_train
                ∧ (fst <$> values "Y_train" σ') = Some Y_train
                ∧ (fst <$> table "X_test" σ') = Some X_test
                ∧ (fst <$> values "Y_test" σ') = Some Y_test
      | _, _ => cell9 asset_config σ = None
      end.
Proof.
  eexists _, _, _. split; [by vm_compute|].
  unshelve refine ((λ Htr Hte, conj Htr (conj Hte
            (label_cell_computes_xy asset_config _ _ _ Htr Hte))) _ _);
    try (by vm_compute).
Defined.

(** X21: in the notebook without pre-filter the loaded table itself is
    bound to [data], and the time-dependent split changes it in place:
    after the cell the loaded table is indexed by [entryID] and sorted. *)
Theorem variant_time_split_changes_loaded_table cfg dfs σ0 σ1 :
  time_split cfg = true →
  variant_cell3 dfs empty_store = Some ((), σ0) →
  cell7 cfg σ0 = Some ((), σ1) →
  ∃ df d1, load dfs = Some df ∧ set_index "entryID" df = Some d1
           ∧ (fst <$> table "data" σ0) = Some df
           ∧ (fst <$> table "data" σ1) = Some (sort_index d1).
Proof.
  unfold cell7. intros -> H0 H.
  unfold variant_cell3, load, mbind, M_bind, lift in *.
  destruct (pd_concat dfs) as [df|]; [|done]. cbn in H0. injection H0 as <-.
  assert (refers "data" [] 0 (Table df)
            (mkStore [Table df] (<["data" := 0%nat]> ∅))) as Hd.
  { repeat split; [done..|]. by intros z ?%elem_of_nil. }
  destruct (cell7_time_data cfg 0 df _ _ _ H Hd) as (d1 & Hd1 & Hd').
  exists df, d1. repeat (split; [done|]). by eapply read_table.
Qed.

Lemma variant_time_split_changes_loaded_table_witness :
  ∃ σ0 σ1,
    variant_cell3 [fleet] empty_store = Some ((), σ0)
    ∧ cell7 time_config σ0 = Some ((), σ1)
    ∧ ∃ df d1, load [fleet] = Some df ∧ set_index "entryID" df = Some d1
               ∧ (fst <$> table "data" σ0) = Some df
               ∧ (fst <$> table "data" σ1) = Some (sort_index d1).
Proof.
  eexists _, _.
  unshelve refine ((λ Hload Hrun, conj Hload (conj Hrun
            (variant_time_split_changes_loaded_table time_config [fleet] _ _
               eq_refl Hload Hrun))) _ _); try (by vm_compute).
Defined.

Section cell_frames.
Context (x : string) (l : nat) (o : object).

Lemma cell9_frame cfg :
  x ∉ ["X_train"; "Y_train"; "X_test"; "Y_test"] →
  triple (refers x [] l o) (cell9 cfg) (refers x [] l o).
Proof.
  intros Hx. unfold cell9.
  assert (x ≠ "X_train" ∧ x ≠ "Y_train" ∧ x ≠ "X_test" ∧ x ≠ "Y_test")
    as (? & ? & ? & ?) by set_solver.
  repeat triple_step.
Qed.

Lemma cell13_frame :
  x ∉ ["sm"; "X_train_res"; "Y_train_res"] →
  triple (refers x [] l o) cell13 (refers x [] l o).
Proof.
  intros Hx. unfold cell13. assert (x ≠ "Y_train_res") by set_solver.
  repeat triple_step.
Qed.
End cell_frames.

(** X22: labelling and balancing leave the tables and labels that exist
    alone.  Label assignment leaves [combined_df], [data], [train] and
    [test] bound to their objects, unchanged; so [train] and [test] still
    hold their identifiers and targets afterwards.  Over-sampling leaves
    these and [X_train], [Y_train], [X_test], [Y_test] alone: it is not
    applied to the test set, and the unbalanced training labels stay
    available. *)
Theorem labelling_and_balancing_frame cfg x l o σ σ' :
  names σ !! x = Some l → heap σ !! l = Some o →
  (x ∈ ["combined_df"; "data"; "train"; "test"] →
   cell9 cfg σ = Some ((), σ') →
   names σ' !! x = Some l ∧ heap σ' !! l = Some o)
  ∧ (x ∈ ["combined_df"; "data"; "train"; "test";
          "X_train"; "Y_train"; "X_test"; "Y_test"] →
     cell13 σ = Some ((), σ') →
     names σ' !! x = Some l ∧ heap σ' !! l = Some o).
Proof.
  intros Hname Hobj.
  assert (refers x [] l o σ) as Hx.
  { repeat split; [done..|]. by intros z ?%elem_of_nil. }
  split.
  - intros Hin H.
    assert (x ∉ ["X_train"; "Y_train"; "X_test"; "Y_test"]) as Hn.
    { repeat (apply elem_of_cons in Hin as [->|Hin]); [..|by apply elem_of_nil in Hin];
        by apply (bool_decide_unpack _). }
    by destruct (cell9_frame x l o cfg Hn _ _ _ H Hx) as (? & ? & _).
  - intros Hin H.
    assert (x ∉ ["sm"; "X_train_res"; "Y_train_res"]) as Hn.
    { repeat (apply elem_of_cons in Hin as [->|Hin]); [..|by apply elem_of_nil in Hin];
        by apply (bool_decide_unpack _). }
    by destruct (cell13_frame x l o Hn _ _ _ H Hx) as (? & ? & _).
Qed.

Lemma labelling_and_balancing_frame_witness :
  ∃ σ σ' o,
    (snd <$> cell3 [fleet] empty_store)
      ≫= run [cell5 asset_config; cell7 asset_config; cell9 asset_config] = Some σ
    ∧ names σ !! "Y_test" = Some 11%nat
    ∧ heap σ !! 11%nat = Some o
    ∧ cell13 σ = Some ((), σ')
    ∧ names σ' !! "Y_test" = Some 11%nat ∧ heap σ' !! 11%nat = Some o.
Proof.
  assert ("Y_test" ∈ ["combined_df"; "data"; "train"; "test";
                      "X_train"; "Y_train"; "X_test"; "Y_test"]) as Hx
    by (by apply (bool_decide_unpack _)).
  eexists _, _, _. split; [by vm_compute|].
  unshelve refine ((λ Hname Hobj Hrun, conj Hname (conj Hobj (conj Hrun
            (proj2 (labelling_and_balancing_frame asset_config "Y_test" 11 _ _ _
                      Hname Hobj) Hx Hrun)))) _ _ _);
    try (by vm_compute).
Defined.

(** ** The notebook and the function *)

Section refinement.
Local Opaque pd_concat groupby_agg join_on df_drop df_filter set_index
  reset_index sort_index train_test_split_ordered train_test_split_shuffled
  xy smote_labels unique col.

(** Running the store operations on a store whose names are known. *)
Ltac store_simpl :=
  repeat (
    unfold lift, assign, table, values, deref, inplace, mbind, M_bind, mret, M_ret;
    cbn [heap names option_bind option_fmap option_map fmap mbind app length
         fst snd lookup list_lookup insert list_insert foldl option_ret mret];
    simplify_map_eq).

(** A case distinction on the next call that may raise. *)
Ltac store_step :=
  match goal with
  | |- context [option_bind _ _ _ ?o] =>
      lazymatch o with
      | guard _ => destruct o as [?|] eqn:?
      | pd_concat _ => destruct o as [?|] eqn:?
      | groupby_agg _ _ _ _ => destruct o as [?|] eqn:?
      | join_on _ _ _ _ => destruct o as [?|] eqn:?
      | df_drop _ _ => destruct o as [?|] eqn:?
      | set_index _ _ => destruct o as [?|] eqn:?
      | reset_index _ => destruct o as [?|] eqn:?
      | xy _ _ => destruct o as [[? ?]|] eqn:?
      | smote_labels _ => destruct o as [?|] eqn:?
      | train_test_split_ordered _ _ => destruct o as [[? ?]|] eqn:?
      | train_test_split_shuffled _ _ _ => destruct o as [[? ?]|] eqn:?
      end
  end; store_simpl.

(** X23: the notebook, run cell by cell on the store with its changes
    in place, leaves under [X_train], [Y_train], [X_test], [Y_test] and
    [Y_train_res] exactly what the composition of loading, pre-filter,
    partition, label assignment and balancing computes, and it raises
    exactly when that composition does. *)
Lemma notebook_refines_prepare cfg dfs :
  notebook cfg dfs ≫= read_prepared = prepare cfg dfs.
Proof.
  unfold notebook, prepare, split_data, load, stages, run, cell3, cell5, cell7,
    cell9, cell13, read_prepared, prefilter, partition.
  store_simpl.
  repeat (store_step; try done).
  destruct (time_split cfg).
  - unfold cell7_time, time_dependent_split, exclude_lookback. store_simpl.
    repeat (store_step; try done).
  - unfold cell7_asset, asset_split. store_simpl.
    repeat (store_step; try done).
Qed.
End refinement.
